(** * sim.py: lane-keeping traffic simulation

    A shallow embedding of [sim.py] and the properties of its queries,
    its rule-based controller and its per-tick main loop.

    Numbers.  Python [int] values are [Z].  Python [float] values (vehicle
    positions, speeds, elapsed time) are exact rationals [Q]: the
    development reasons about the arithmetic the program writes down and
    does not model binary64 rounding.  Rational results are compared with
    [==] ([Qeq]), since a rational has several representations.

    Globals.  The module-level variables [ego], [traffic],
    [time_since_spawn], [autopilot], [score] and [running] become the
    fields of the record [World]; helpers that read them take them as
    arguments.  The display half of the loop body writes no simulation
    state and is left out. *)

From Stdlib Require Import ZArith QArith Qminmax List String Bool Lia Lqa.
From Stdlib Require Import Permutation.
Import ListNotations.

Open Scope Z_scope.

(** ** Python arithmetic on floats *)

Module Py.

(** [a < b] on floats. *)
Definition Qltb (a b : Q) : bool := negb (Qle_bool b a).

(** The builtin [max(a, b)]: the first argument unless the second is
    strictly larger. *)
Definition max (a b : Q) : Q := if Qltb a b then b else a.

(** The builtin [min(a, b)]: the first argument unless the second is
    strictly smaller. *)
Definition min (a b : Q) : Q := if Qltb b a then b else a.

(** [int(q)]: truncation toward zero. *)
Definition int (q : Q) : Z := Z.quot (Qnum q) (Z.pos (Qden q)).

(** [min(c0 :: rest, key=key)]: the first element whose key is minimal;
    a later element replaces the candidate only with a strictly smaller
    key. *)
Definition min_by {A : Type} (key : A -> Q) (c0 : A) (rest : list A) : A :=
  fold_left (fun best c => if Qltb (key c) (key best) then c else best)
            rest c0.

End Py.

(** ** CONFIG *)

Definition WIDTH : Z := 900.
Definition HEIGHT : Z := 600.
Definition LANES : Z := 3.
Definition LANE_WIDTH : Z := 120.
Definition ROAD_X : Z := WIDTH / 2 - (LANE_WIDTH * LANES) / 2.

Definition EGO_START_LANE : Z := 1.
Definition EGO_START_Y : Z := HEIGHT - 150.
Definition EGO_WIDTH : Z := 40.
Definition EGO_HEIGHT : Z := 70.

Definition TRAFFIC_WIDTH : Z := 40.
Definition TRAFFIC_HEIGHT : Z := 70.
Definition SPAWN_INTERVAL : Q := 12 # 10.

Definition SAFE_DISTANCE : Z := 120.
Definition MAX_SPEED : Q := 8.
Definition MIN_SPEED : Q := 2.

(** ** ENTITIES *)

Record Car : Type := mkCar {
  lane : Z;
  y : Q;
  speed : Q;
  w : Z;
  h : Z;
  is_ego : bool
}.

(** Functional updates of the three fields the program assigns. *)
Definition set_lane (c : Car) (l : Z) : Car :=
  mkCar l (y c) (speed c) (w c) (h c) (is_ego c).
Definition set_y (c : Car) (v : Q) : Car :=
  mkCar (lane c) v (speed c) (w c) (h c) (is_ego c).
Definition set_speed (c : Car) (v : Q) : Car :=
  mkCar (lane c) (y c) v (w c) (h c) (is_ego c).

(** The property [Car.x]; [/] is true division. *)
Definition x (c : Car) : Q :=
  (inject_Z (ROAD_X + lane c * LANE_WIDTH)
   + inject_Z (LANE_WIDTH - w c) / 2)%Q.

(** [pygame.Rect]: integer left, top, width and height. *)
Record Rect : Type := mkRect {
  rect_x : Z;
  rect_y : Z;
  rect_w : Z;
  rect_h : Z
}.

Definition rect (c : Car) : Rect :=
  mkRect (Py.int (x c)) (Py.int (y c)) (w c) (h c).

(** [pygame.Rect.colliderect], as pygame 2 implements it: a rectangle of
    zero width or height collides with nothing, and otherwise the two
    extents must overlap strictly on both axes (the min/max normalise
    negative sizes). *)
Definition colliderect (a b : Rect) : bool :=
  if (rect_w a =? 0) || (rect_h a =? 0) || (rect_w b =? 0) || (rect_h b =? 0)
  then false
  else
    (Z.min (rect_x a) (rect_x a + rect_w a)
       <? Z.max (rect_x b) (rect_x b + rect_w b))
    && (Z.min (rect_y a) (rect_y a + rect_h a)
          <? Z.max (rect_y b) (rect_y b + rect_h b))
    && (Z.max (rect_x a) (rect_x a + rect_w a)
          >? Z.min (rect_x b) (rect_x b + rect_w b))
    && (Z.max (rect_y a) (rect_y a + rect_h a)
          >? Z.min (rect_y b) (rect_y b + rect_h b)).

(** ** HELPERS *)

(** One call of [spawn_traffic] consumes three random draws:
    [random.randrange(0, LANES)], [random.randint(0, 200)] and
    [random.uniform(2.5, 6.5)]. *)
Record SpawnDraw : Type := mkDraw {
  draw_lane : Z;
  draw_offset : Z;
  draw_speed : Q
}.

Definition spawn_traffic (d : SpawnDraw) (traffic : list Car) : list Car :=
  let lane := draw_lane d in
  let y := inject_Z (- TRAFFIC_HEIGHT - draw_offset d) in
  let speed := draw_speed d in
  traffic ++ [mkCar lane y speed TRAFFIC_WIDTH TRAFFIC_HEIGHT false].

(** The bottom edge [c.y + c.h] of a car. *)
Definition bottom (c : Car) : Q := (y c + inject_Z (h c))%Q.

Definition find_vehicle_ahead (traffic : list Car) (lane0 : Z) (y0 : Q)
  : option Car :=
  let ahead :=
    filter (fun c => (lane c =? lane0) && Py.Qltb (bottom c) y0) traffic in
  match ahead with
  | [] => None
  | c0 :: rest => Some (Py.min_by (fun c => (y0 - bottom c)%Q) c0 rest)
  end.

Definition buffer_above : Q := 40.
Definition buffer_below : Q := 80.

(** [safe_to_change] reads the globals [traffic] and [ego]; the loop
    returns [False] at the first car of the target lane inside the zone. *)
Fixpoint safe_to_change (traffic : list Car) (ego : Car) (target_lane : Z)
  : bool :=
  match traffic with
  | [] => true
  | c :: rest =>
      if (lane c =? target_lane)
         && (Py.Qltb (y ego - buffer_above) (bottom c)
             && Py.Qltb (y c) (y ego + buffer_below))
      then false
      else safe_to_change rest ego target_lane
  end.

(** The body of [for dir_delta in [-1, 1]] in the controller: [Some] is the
    early [return], [None] is the loop running to its end. *)
Fixpoint lane_change_loop (traffic : list Car) (ego : Car) (target_speed : Q)
    (deltas : list Z) : option (string * Q) :=
  match deltas with
  | [] => None
  | dir_delta :: rest =>
      let new_lane := lane ego + dir_delta in
      if (0 <=? new_lane) && (new_lane <? LANES)
         && safe_to_change traffic ego new_lane
      then Some (if dir_delta =? -1 then "left"%string else "right"%string,
                 target_speed)
      else lane_change_loop traffic ego target_speed rest
  end.

Definition controller_rule_based (traffic : list Car) (ego : Car)
  : string * Q :=
  let current := find_vehicle_ahead traffic (lane ego) (y ego) in
  let target_speed := MAX_SPEED in
  match current with
  | Some current =>
      let dist := (y ego - bottom current)%Q in
      if Py.Qltb dist (inject_Z SAFE_DISTANCE) then
        let target_speed := Py.max MIN_SPEED (speed current - (1 # 2)) in
        match lane_change_loop traffic ego target_speed [-1; 1] with
        | Some r => r
        | None => ("keep"%string, target_speed)
        end
      else ("keep"%string, target_speed)
  | None => ("keep"%string, target_speed)
  end.

(** ** SIM STATE *)

Record World : Type := mkWorld {
  ego : Car;
  traffic : list Car;
  time_since_spawn : Q;
  autopilot : bool;
  collisions : Z;        (* score["collisions"] *)
  frames : Z;            (* score["frames"] *)
  running : bool
}.

Definition initial_world : World :=
  mkWorld (mkCar EGO_START_LANE (inject_Z EGO_START_Y) 6
                 EGO_WIDTH EGO_HEIGHT true)
          [] 0 true 0 0 true.

Definition with_ego (s : World) (e : Car) : World :=
  mkWorld e (traffic s) (time_since_spawn s) (autopilot s)
          (collisions s) (frames s) (running s).
Definition with_traffic (s : World) (t : list Car) : World :=
  mkWorld (ego s) t (time_since_spawn s) (autopilot s)
          (collisions s) (frames s) (running s).

(** ** MAIN LOOP *)

(** What [pygame.event.get()] can deliver, as far as the loop tells events
    apart. *)
Inductive Key : Type := K_SPACE | K_LEFT | K_RIGHT | K_UP | K_DOWN | K_other.
Inductive Event : Type := QUIT | KEYDOWN (key : Key) | other_event.

(** What one iteration reads from outside: the milliseconds returned by
    [clock.tick(FPS)], the event queue, and the random draws of a spawn. *)
Record TickInput : Type := mkInput {
  tick_ms : Z;
  events : list Event;
  draw : SpawnDraw
}.

(** Lines 101-103. *)
Definition begin_tick (ms : Z) (s : World) : World :=
  let dt := (inject_Z ms / 1000)%Q in
  mkWorld (ego s) (traffic s) (time_since_spawn s + dt)%Q (autopilot s)
          (collisions s) (frames s + 1) (running s).

(** Lines 106-118, one event. *)
Definition handle_event (s : World) (event : Event) : World :=
  match event with
  | QUIT =>
      mkWorld (ego s) (traffic s) (time_since_spawn s) (autopilot s)
              (collisions s) (frames s) false
  | KEYDOWN K_SPACE =>
      mkWorld (ego s) (traffic s) (time_since_spawn s) (negb (autopilot s))
              (collisions s) (frames s) (running s)
  | KEYDOWN K_LEFT =>
      with_ego s (set_lane (ego s) (Z.max 0 (lane (ego s) - 1)))
  | KEYDOWN K_RIGHT =>
      with_ego s (set_lane (ego s) (Z.min (LANES - 1) (lane (ego s) + 1)))
  | KEYDOWN K_UP =>
      with_ego s (set_speed (ego s)
                    (Py.min MAX_SPEED (speed (ego s) + (1 # 2))))
  | KEYDOWN K_DOWN =>
      with_ego s (set_speed (ego s) (Py.max (1 # 2) (speed (ego s) - (1 # 2))))
  | KEYDOWN K_other => s
  | other_event => s
  end.

(** Line 105: the events in queue order. *)
Definition handle_events (evs : list Event) (s : World) : World :=
  fold_left handle_event evs s.

(** Lines 121-123. *)
Definition spawn_phase (d : SpawnDraw) (s : World) : World :=
  if Py.Qltb SPAWN_INTERVAL (time_since_spawn s) then
    mkWorld (ego s) (spawn_traffic d (traffic s)) 0 (autopilot s)
            (collisions s) (frames s) (running s)
  else s.

(** Lines 126-129. *)
Definition update_traffic (s : World) : World :=
  let moved := map (fun c => set_y c (y c + speed c)%Q) (traffic s) in
  with_traffic s
    (filter (fun c => Py.Qltb (y c) (inject_Z (HEIGHT + 200))) moved).

(** Lines 132-144. *)
Definition ego_logic (s : World) : World :=
  if autopilot s then
    let '(action, tgt_speed) := controller_rule_based (traffic s) (ego s) in
    let e := ego s in
    let e :=
      if (action =? "left")%string && (lane e >? 0)
         && safe_to_change (traffic s) e (lane e - 1)
      then set_lane e (lane e - 1)
      else if (action =? "right")%string && (lane e <? LANES - 1)
              && safe_to_change (traffic s) e (lane e + 1)
      then set_lane e (lane e + 1)
      else e in
    let e := set_speed e (speed e + (tgt_speed - speed e) * (8 # 100))%Q in
    let e := set_speed e (Py.max (1 # 2) (Py.min MAX_SPEED (speed e))) in
    with_ego s e
  else s.

(** Line 147. *)
Definition ego_move (s : World) : World :=
  with_ego s (set_y (ego s) (y (ego s) - speed (ego s))%Q).

(** Lines 150-155. *)
Definition world_scroll (s : World) : World :=
  if Py.Qltb (y (ego s)) (inject_Z (HEIGHT / 2)) then
    let shift := (inject_Z (HEIGHT / 2) - y (ego s))%Q in
    mkWorld (set_y (ego s) (y (ego s) + shift)%Q)
            (map (fun c => set_y c (y c + shift)%Q) (traffic s))
            (time_since_spawn s) (autopilot s)
            (collisions s) (frames s) (running s)
  else s.

(** Lines 158-163: the scan stops at the first colliding car. *)
Fixpoint collision_check (e_rect : Rect) (traffic : list Car) : bool :=
  match traffic with
  | [] => false
  | c :: rest =>
      if colliderect e_rect (rect c) then true
      else collision_check e_rect rest
  end.

(** Lines 158-170. *)
Definition collision_phase (s : World) : World :=
  let e_rect := rect (ego s) in
  let collision := collision_check e_rect (traffic s) in
  if collision then
    let e := set_lane (ego s) EGO_START_LANE in
    let e := set_y e (inject_Z EGO_START_Y) in
    let e := set_speed e (45 # 10) in
    mkWorld e [] (time_since_spawn s) (autopilot s)
            (collisions s + 1) (frames s) (running s)
  else s.

(** The part of an iteration that runs before the world-scroll. *)
Definition before_scroll (s : World) (inp : TickInput) : World :=
  ego_move
    (ego_logic
       (update_traffic
          (spawn_phase (draw inp)
             (handle_events (events inp) (begin_tick (tick_ms inp) s))))).

(** The part of an iteration that runs before the collision check. *)
Definition before_collision (s : World) (inp : TickInput) : World :=
  world_scroll (before_scroll s inp).

(** One iteration of [while running]. *)
Definition tick (s : World) (inp : TickInput) : World :=
  collision_phase (before_collision s inp).

(** The values the outside can deliver: a non-negative duration, and draws
    within the ranges of the three random calls. *)
Definition valid_draw (d : SpawnDraw) : Prop :=
  0 <= draw_lane d < LANES
  /\ 0 <= draw_offset d <= 200
  /\ ((25 # 10) <= draw_speed d <= (65 # 10))%Q.

Definition valid_input (inp : TickInput) : Prop :=
  0 <= tick_ms inp /\ valid_draw (draw inp).

(** The states the loop passes through at the top of an iteration. *)
Inductive reachable : World -> Prop :=
| reachable_init : reachable initial_world
| reachable_tick s inp :
    reachable s -> running s = true -> valid_input inp ->
    reachable (tick s inp).

(** ** The calls of [safe_to_change]

    The same controller and lane-change commit, returning besides their
    result the list of target lanes [safe_to_change] was called with, in
    call order.  [and] evaluates its right operand only when the left one
    is true, so a call happens only after the tests written before it. *)

Module Calls.

Definition Traced (A : Type) : Type := (A * list Z)%type.

Definition ret {A : Type} (a : A) : Traced A := (a, []).

Definition bind {A B : Type} (m : Traced A) (k : A -> Traced B)
  : Traced B :=
  let '(a, l1) := m in let '(b, l2) := k a in (b, l1 ++ l2).

(** [b and m]: [m] runs only when [b] holds. *)
Definition and_then (b : bool) (m : Traced bool) : Traced bool :=
  if b then m else ret false.

Definition call_safe_to_change (traffic : list Car) (ego : Car)
    (target_lane : Z) : Traced bool :=
  (safe_to_change traffic ego target_lane, [target_lane]).

Fixpoint lane_change_loop (traffic : list Car) (ego : Car)
    (target_speed : Q) (deltas : list Z) : Traced (option (string * Q)) :=
  match deltas with
  | [] => ret None
  | dir_delta :: rest =>
      let new_lane := lane ego + dir_delta in
      bind (and_then ((0 <=? new_lane) && (new_lane <? LANES))
                     (call_safe_to_change traffic ego new_lane))
           (fun ok =>
              if ok
              then ret (Some (if dir_delta =? -1
                              then "left"%string else "right"%string,
                              target_speed))
              else lane_change_loop traffic ego target_speed rest)
  end.

Definition controller_rule_based (traffic : list Car) (ego : Car)
  : Traced (string * Q) :=
  match find_vehicle_ahead traffic (lane ego) (y ego) with
  | Some current =>
      let dist := (y ego - bottom current)%Q in
      if Py.Qltb dist (inject_Z SAFE_DISTANCE) then
        let target_speed := Py.max MIN_SPEED (speed current - (1 # 2)) in
        bind (lane_change_loop traffic ego target_speed [-1; 1])
             (fun r => match r with
                       | Some r => ret r
                       | None => ret ("keep"%string, target_speed)
                       end)
      else ret ("keep"%string, MAX_SPEED)
  | None => ret ("keep"%string, MAX_SPEED)
  end.

(** Lines 133-138: the controller call and the lane-change commit; the
    result is the ego's new lane. *)
Definition lane_commit (traffic : list Car) (e : Car) : Traced Z :=
  bind (controller_rule_based traffic e)
       (fun '(action, _) =>
          bind (and_then ((action =? "left")%string && (lane e >? 0))
                         (call_safe_to_change traffic e (lane e - 1)))
               (fun go_left =>
                  if go_left then ret (lane e - 1)
                  else
                    bind (and_then ((action =? "right")%string
                                    && (lane e <? LANES - 1))
                                   (call_safe_to_change traffic e
                                                        (lane e + 1)))
                         (fun go_right =>
                            if go_right then ret (lane e + 1)
                            else ret (lane e)))).

End Calls.

(** ** Predicates used in the statements *)

(** Car [c] is in lane [L] and its bottom edge is strictly ahead of [Y]. *)
Definition ahead_of (L : Z) (Y : Q) (c : Car) : Prop :=
  lane c = L /\ (y c + inject_Z (h c) < Y)%Q.


(** Lane [L] exists and [safe_to_change] accepts it. *)
Definition candidate_ok (traffic : list Car) (ego : Car) (L : Z) : Prop :=
  0 <= L < LANES /\ safe_to_change traffic ego L = true.

(** Strict overlap of two rectangles on both axes. *)
Definition overlap (a b : Rect) : Prop :=
  rect_x a < rect_x b + rect_w b /\ rect_x a + rect_w a > rect_x b
  /\ rect_y a < rect_y b + rect_h b /\ rect_y a + rect_h a > rect_y b.

(** The lane of a car is one of the [LANES] lanes. *)
Definition lane_ok (c : Car) : Prop := 0 <= lane c < LANES.

(** The speed of a car lies in [0.5, MAX_SPEED]. *)
Definition speed_ok (c : Car) : Prop := ((1 # 2) <= speed c <= 8)%Q.

(** Every car is built with the footprint 40 x 70 and keeps it. *)
Definition size_ok (c : Car) : Prop := w c = 40 /\ h c = 70.

Definition car_ok (c : Car) : Prop := lane_ok c /\ size_ok c.

(** The invariant of the loop. *)
Definition world_ok (s : World) : Prop :=
  car_ok (ego s) /\ speed_ok (ego s) /\ Forall car_ok (traffic s).

(** ** Example runs *)

(** A slow first frame (1.3 s, so a car is spawned in lane 1) during which
    the left key is pressed twice and the down key once. *)
Definition example_input : TickInput :=
  mkInput 1300 [KEYDOWN K_LEFT; KEYDOWN K_LEFT; KEYDOWN K_DOWN]
          (mkDraw 1 0 (5 # 2)).

Definition example_world : World := tick initial_world example_input.

(** A world in which two cars of the ego's lane sit on top of the ego,
    and a quiet frame of 33 ms. *)
Definition crash_world : World :=
  mkWorld (mkCar 1 450 6 EGO_WIDTH EGO_HEIGHT true)
          [mkCar 1 430 3 TRAFFIC_WIDTH TRAFFIC_HEIGHT false;
           mkCar 1 440 3 TRAFFIC_WIDTH TRAFFIC_HEIGHT false;
           mkCar 0 100 3 TRAFFIC_WIDTH TRAFFIC_HEIGHT false]
          0 true 0 0 true.

Definition quiet_input : TickInput := mkInput 33 [] (mkDraw 0 0 (5 # 2)).

(** A frame that lasts exactly 1.2 s, from the initial world. *)
Definition exact_interval_input : TickInput :=
  mkInput 1200 [] (mkDraw 0 0 (5 # 2)).

(** The ego in lane 1 at y = 450, a car 50 px ahead of it in its lane,
    and cars beside the ego in lanes 0 and 2. *)
Definition scenario_ego : Car := mkCar 1 450 6 EGO_WIDTH EGO_HEIGHT true.
Definition scenario_blocker : Car :=
  mkCar 1 330 3 TRAFFIC_WIDTH TRAFFIC_HEIGHT false.
Definition beside_left : Car :=
  mkCar 0 420 3 TRAFFIC_WIDTH TRAFFIC_HEIGHT false.
Definition beside_right : Car :=
  mkCar 2 420 3 TRAFFIC_WIDTH TRAFFIC_HEIGHT false.

(** ** The sensor read-out

    Lines 198-208 of the display half: for each lane the text drawn is
    [int(dist)] for the nearest car ahead of the ego, and a dotted line
    ([None]) when there is none. *)



(** ** Further predicates *)

(** A traffic car as [spawn_traffic] builds it and the loop keeps it: not
    the ego, a speed within the drawn range, no higher up than the highest
    spawn position. *)
Definition traffic_car_ok (c : Car) : Prop :=
  is_ego c = false
  /\ ((25 # 10) <= speed c <= (65 # 10))%Q
  /\ (- (270) <= y c)%Q.

(** The ego is flagged and between [lo] and [hi]; every traffic car is a
    traffic car above [ymax]. *)
Definition pos_inv (lo hi ymax : Q) (s : World) : Prop :=
  is_ego (ego s) = true
  /\ (lo <= y (ego s) <= hi)%Q
  /\ Forall (fun c => traffic_car_ok c /\ (y c < ymax)%Q) (traffic s).

Definition is_quit (e : Event) : bool :=
  match e with QUIT => true | _ => false end.

Definition is_key (k : Key) (e : Event) : bool :=
  match e, k with
  | KEYDOWN K_SPACE, K_SPACE | KEYDOWN K_LEFT, K_LEFT
  | KEYDOWN K_RIGHT, K_RIGHT | KEYDOWN K_UP, K_UP
  | KEYDOWN K_DOWN, K_DOWN | KEYDOWN K_other, K_other => true
  | _, _ => false
  end.

(** The number of times the space bar went down in a queue. *)
Definition toggles (evs : list Event) : nat :=
  List.length (filter (is_key K_SPACE) evs).

(** A car moved along the road by [d]. *)
Definition shift_car (d : Q) (c : Car) : Car := set_y c (y c + d)%Q.

(** Two cars of lane 1 whose rectangles overlap, and one far ahead. *)
Definition car_a : Car := mkCar 1 450 6 40 70 true.
Definition car_b : Car := mkCar 1 (8375 # 20) 3 40 70 false.
Definition car_far : Car := mkCar 1 100 3 40 70 false.

(** A world in the middle of a tick: the ego blocked in lane 1 with lane 0
    free and lane 2 occupied beside it. *)
Definition blocked_world : World :=
  mkWorld scenario_ego [scenario_blocker; beside_right] 0 true 0 0 true.

(** A queue without the down key. *)
Definition no_down_input : TickInput :=
  mkInput 33 [KEYDOWN K_UP; KEYDOWN K_SPACE; KEYDOWN K_LEFT]
          (mkDraw 2 10 3).

(** The part of an iteration that runs before the ego logic. *)
Definition before_logic (s : World) (inp : TickInput) : World :=
  update_traffic
    (spawn_phase (draw inp)
       (handle_events (events inp) (begin_tick (tick_ms inp) s))).

(** * Properties *)

(** ** Comparisons and builtins *)

Lemma Qltb_lt (a b : Q) : Py.Qltb a b = true <-> (a < b)%Q.
Proof.
  unfold Py.Qltb. rewrite negb_true_iff.
  split; intro H.
  - apply Qnot_le_lt. intro Hle. apply Qle_bool_iff in Hle. congruence.
  - destruct (Qle_bool b a) eqn:E; [|reflexivity].
    apply Qle_bool_iff in E. exfalso. apply (Qlt_not_le _ _ H E).
Qed.

Lemma Qltb_ge (a b : Q) : Py.Qltb a b = false <-> (b <= a)%Q.
Proof.
  unfold Py.Qltb. rewrite negb_false_iff. apply Qle_bool_iff.
Qed.

(** Case analysis on a float comparison, leaving the order fact in the
    context. *)
Ltac case_Qltb a b :=
  let E := fresh "E" in
  destruct (Py.Qltb a b) eqn:E;
  [apply Qltb_lt in E | apply Qltb_ge in E].

Lemma py_max_spec (a b : Q) :
  (Py.max a b == Qmax a b)%Q /\ (a <= Py.max a b)%Q /\ (b <= Py.max a b)%Q.
Proof.
  unfold Py.max. case_Qltb a b.
  - rewrite Q.max_r by lra. repeat split; lra.
  - rewrite Q.max_l by lra. repeat split; lra.
Qed.

Lemma py_min_spec (a b : Q) :
  (Py.min a b == Qmin a b)%Q /\ (Py.min a b <= a)%Q /\ (Py.min a b <= b)%Q.
Proof.
  unfold Py.min. case_Qltb b a.
  - rewrite Q.min_r by lra. repeat split; lra.
  - rewrite Q.min_l by lra. repeat split; lra.
Qed.

(** [min(.., key=..)] returns an element of its argument whose key is
    minimal. *)
Lemma min_by_spec {A : Type} (key : A -> Q) (rest : list A) (c0 : A) :
  In (Py.min_by key c0 rest) (c0 :: rest)
  /\ forall c, In c (c0 :: rest) -> (key (Py.min_by key c0 rest) <= key c)%Q.
Proof.
  unfold Py.min_by. revert c0.
  induction rest as [|c1 rest IH]; intro c0; simpl.
  - split; [now left|]. intros c [<-|[]]. lra.
  - case_Qltb (key c1) (key c0).
    + destruct (IH c1) as [Hin Hmin]. split.
      * right. exact Hin.
      * intros c [<-|Hc]; [|now apply Hmin].
        specialize (Hmin c1 (or_introl eq_refl)). lra.
    + destruct (IH c0) as [Hin Hmin]. split.
      * destruct Hin as [Hin|Hin]; [now left|right; now right].
      * intros c [<-|[<-|Hc]].
        -- apply Hmin. now left.
        -- specialize (Hmin c0 (or_introl eq_refl)). lra.
        -- apply Hmin. now right.
Qed.

(** ** Spatial queries *)

Section Queries.

Variable traffic : list Car.

Lemma ahead_filter_In (L : Z) (Y : Q) (c : Car) :
  In c (filter (fun c => (lane c =? L) && Py.Qltb (bottom c) Y) traffic)
  <-> In c traffic /\ ahead_of L Y c.
Proof.
  rewrite filter_In, andb_true_iff, Z.eqb_eq, Qltb_lt.
  unfold ahead_of, bottom. tauto.
Qed.


Variable ego : Car.


End Queries.

(** Of two cars at the same minimal gap the first in the list is
    returned. *)
Example find_vehicle_ahead_tie :
  find_vehicle_ahead [mkCar 1 330 3 40 70 false; mkCar 1 330 4 40 70 false;
                      mkCar 1 200 5 40 70 false; mkCar 1 400 5 40 70 false]
                     1 450
  = Some (mkCar 1 330 3 40 70 false).
Proof. reflexivity. Qed.

(** ** Rule-based controller *)

Section Controller.

Variables (traffic : list Car) (ego : Car).

Lemma candidate_ok_test (L : Z) :
  (0 <=? L) && (L <? LANES) && safe_to_change traffic ego L = true
  <-> candidate_ok traffic ego L.
Proof.
  unfold candidate_ok.
  rewrite !andb_true_iff, Z.leb_le, Z.ltb_lt. tauto.
Qed.



End Controller.

(** The three scenarios of a blocked ego: both neighbours free, the left
    one occupied, both occupied. *)
Example controller_scenarios :
  controller_rule_based [scenario_blocker] scenario_ego
  = ("left"%string, 5 # 2)
  /\ controller_rule_based [scenario_blocker; beside_left] scenario_ego
     = ("right"%string, 5 # 2)
  /\ controller_rule_based [scenario_blocker; beside_left; beside_right]
                           scenario_ego
     = ("keep"%string, 5 # 2)
  /\ controller_rule_based [beside_left; beside_right] scenario_ego
     = ("keep"%string, 8%Q).
Proof. vm_compute. repeat split. Qed.

(** ** The loop invariant *)

Section Invariant.

Lemma car_ok_set_y (c : Car) (v : Q) : car_ok c -> car_ok (set_y c v).
Proof. exact (fun H => H). Qed.

Lemma world_ok_begin_tick (ms : Z) (s : World) :
  world_ok s -> world_ok (begin_tick ms s).
Proof. exact (fun H => H). Qed.

Lemma world_ok_handle_event (s : World) (e : Event) :
  world_ok s -> world_ok (handle_event s e).
Proof.
  intros [[Hl Hsz] [Hsp Ht]].
  destruct e as [|[]|]; unfold world_ok, car_ok; simpl;
    (split; [split; [|exact Hsz] | split; [|exact Ht]]);
    unfold lane_ok, speed_ok, LANES, Py.min, Py.max, MAX_SPEED in *; simpl;
    try lia;
    try (destruct (Py.Qltb _ _) eqn:E;
         [apply Qltb_lt in E | apply Qltb_ge in E]);
    lra.
Qed.

Lemma world_ok_handle_events (evs : list Event) (s : World) :
  world_ok s -> world_ok (handle_events evs s).
Proof.
  unfold handle_events. revert s.
  induction evs as [|e evs IH]; intros s Hs; simpl; [exact Hs|].
  apply IH, world_ok_handle_event, Hs.
Qed.

Lemma world_ok_spawn_phase (d : SpawnDraw) (s : World) :
  valid_draw d -> world_ok s -> world_ok (spawn_phase d s).
Proof.
  intros (Hd & _) (He & Hsp & Ht). unfold spawn_phase.
  destruct (Py.Qltb _ _); [|unfold world_ok, car_ok in *; tauto].
  split; [exact He|]. split; [exact Hsp|]. simpl.
  unfold spawn_traffic. apply Forall_app. split; [exact Ht|].
  constructor; [|constructor].
  repeat split; simpl; lia.
Qed.

Lemma world_ok_update_traffic (s : World) :
  world_ok s -> world_ok (update_traffic s).
Proof.
  intros (He & Hsp & Ht). split; [exact He|]. split; [exact Hsp|].
  simpl. rewrite Forall_forall in *. intros c Hc.
  apply filter_In in Hc. destruct Hc as [Hc _].
  apply in_map_iff in Hc. destruct Hc as [c0 [<- Hc0]].
  apply car_ok_set_y, Ht, Hc0.
Qed.

Lemma clamp_speed_ok (v : Q) :
  ((1 # 2) <= Py.max (1 # 2) (Py.min MAX_SPEED v) <= 8)%Q.
Proof.
  unfold Py.max, Py.min, MAX_SPEED.
  case_Qltb v 8%Q.
  - case_Qltb (1 # 2)%Q v; lra.
  - case_Qltb (1 # 2)%Q 8%Q; lra.
Qed.

Lemma world_ok_ego_logic (s : World) :
  world_ok s -> world_ok (ego_logic s).
Proof.
  intros [[Hl Hsz] [Hsp Ht]]. unfold ego_logic.
  destruct (autopilot s); [|unfold world_ok, car_ok in *; tauto].
  destruct (controller_rule_based (traffic s) (ego s)) as [action tgt].
  unfold world_ok, car_ok, lane_ok, speed_ok in *.
  destruct (_ && (lane (ego s) >? 0) && _) eqn:EL;
    [|destruct (_ && (lane (ego s) <? LANES - 1) && _) eqn:ER];
    simpl; (split; [split; [|exact Hsz]
                   |split; [apply clamp_speed_ok|exact Ht]]).
  - apply andb_prop in EL. destruct EL as [EL _].
    apply andb_prop in EL. destruct EL as [_ EL].
    apply Z.gtb_lt in EL. lia.
  - apply andb_prop in ER. destruct ER as [ER _].
    apply andb_prop in ER. destruct ER as [_ ER].
    apply Z.ltb_lt in ER. lia.
  - exact Hl.
Qed.

Lemma world_ok_ego_move (s : World) :
  world_ok s -> world_ok (ego_move s).
Proof. exact (fun H => H). Qed.

Lemma world_ok_world_scroll (s : World) :
  world_ok s -> world_ok (world_scroll s).
Proof.
  intros (He & Hsp & Ht). unfold world_scroll.
  destruct (Py.Qltb _ _); [|unfold world_ok, car_ok in *; tauto].
  split; [exact He|]. split; [exact Hsp|].
  simpl. rewrite Forall_forall in *. intros c Hc.
  apply in_map_iff in Hc. destruct Hc as [c0 [<- Hc0]].
  apply car_ok_set_y, Ht, Hc0.
Qed.

Lemma world_ok_collision_phase (s : World) :
  world_ok s -> world_ok (collision_phase s).
Proof.
  intros [[Hl Hsz] [Hsp Ht]]. unfold collision_phase.
  destruct (collision_check _ _); [|unfold world_ok, car_ok in *; tauto].
  repeat split; simpl; try apply Hsz; try constructor;
    unfold EGO_START_LANE, LANES; try lia; try lra.
Qed.

Lemma world_ok_before_collision (s : World) (inp : TickInput) :
  valid_draw (draw inp) -> world_ok s -> world_ok (before_collision s inp).
Proof.
  intros Hd Hs. unfold before_collision, before_scroll.
  apply world_ok_world_scroll, world_ok_ego_move, world_ok_ego_logic,
    world_ok_update_traffic, world_ok_spawn_phase; [exact Hd|].
  apply world_ok_handle_events, world_ok_begin_tick, Hs.
Qed.

Lemma world_ok_initial : world_ok initial_world.
Proof.
  unfold world_ok, car_ok, lane_ok, speed_ok, size_ok, LANES. simpl.
  repeat split; try constructor; try lia; try lra; discriminate.
Qed.

Lemma reachable_world_ok (s : World) : reachable s -> world_ok s.
Proof.
  induction 1 as [|s inp _ IH _ [_ Hd]].
  - exact world_ok_initial.
  - apply world_ok_collision_phase, world_ok_before_collision; assumption.
Qed.

End Invariant.

(** ** Invariants of the reachable states *)

Lemma example_input_valid : valid_input example_input.
Proof.
  unfold valid_input, valid_draw, example_input, LANES. simpl.
  repeat split; try lia; lra.
Defined.

Lemma example_world_reachable : reachable example_world.
Proof.
  exact (reachable_tick initial_world example_input
           reachable_init eq_refl example_input_valid).
Defined.

(** C6.  In every state the loop reaches, the ego's lane and the lane of
    every traffic car are in [0, LANES). *)
Theorem lanes_in_range (s : World) :
  reachable s ->
  0 <= lane (ego s) < LANES
  /\ Forall (fun c => 0 <= lane c < LANES) (traffic s).
Proof.
  intro Hr. destruct (reachable_world_ok s Hr) as [[Hl _] [_ Ht]].
  split; [exact Hl|].
  eapply Forall_impl; [|exact Ht]. intros c [Hc _]. exact Hc.
Qed.

Lemma lanes_in_range_witness :
  reachable example_world
  /\ (0 <= lane (ego example_world) < LANES
      /\ Forall (fun c => 0 <= lane c < LANES) (traffic example_world)).
Proof.
  split; [exact example_world_reachable|].
  exact (lanes_in_range example_world example_world_reachable).
Defined.

(** C7.  In every state the loop reaches, the ego's speed is in
    [0.5, 8.0].  The autopilot update is [speed + (target - speed) * 0.08]
    clamped to [0.5, 8.0]; the down key floors at 0.5 and the up key caps
    at 8.0; the collision reset sets 4.5. *)
Theorem ego_speed_in_range (s : World) :
  reachable s ->
  ((1 # 2) <= speed (ego s) <= 8)%Q
  /\ (autopilot s = true ->
      let target := snd (controller_rule_based (traffic s) (ego s)) in
      (speed (ego (ego_logic s))
       == Qmax (1 # 2)
            (Qmin 8 (speed (ego s)
                     + (target - speed (ego s)) * (8 # 100))))%Q)
  /\ (speed (ego (handle_event s (KEYDOWN K_DOWN)))
      == Qmax (1 # 2) (speed (ego s) - (1 # 2)))%Q
  /\ (speed (ego (handle_event s (KEYDOWN K_UP)))
      == Qmin 8 (speed (ego s) + (1 # 2)))%Q
  /\ (collision_check (rect (ego s)) (traffic s) = true ->
      (speed (ego (collision_phase s)) == 45 # 10)%Q).
Proof.
  intro Hr. destruct (reachable_world_ok s Hr) as [_ [Hsp _]].
  split; [exact Hsp|]. split; [|split; [|split]].
  - intros Ha target. subst target. unfold ego_logic. rewrite Ha.
    destruct (controller_rule_based (traffic s) (ego s)) as [action tgt].
    destruct (_ && (lane (ego s) >? 0) && _);
      [|destruct (_ && (lane (ego s) <? LANES - 1) && _)]; simpl;
      match goal with
      | |- (Py.max ?a (Py.min ?b ?v) == _)%Q =>
          destruct (py_max_spec a (Py.min b v)) as [-> _];
          destruct (py_min_spec b v) as [-> _]
      end; reflexivity.
  - simpl. apply py_max_spec.
  - simpl. apply py_min_spec.
  - intro Hc. unfold collision_phase. rewrite Hc. reflexivity.
Qed.

Lemma ego_speed_in_range_witness :
  reachable example_world
  /\ ((1 # 2) <= speed (ego example_world) <= 8)%Q.
Proof.
  split; [exact example_world_reachable|].
  exact (proj1 (ego_speed_in_range example_world example_world_reachable)).
Defined.

(** ** Collision check and recovery *)

Section Collision.

(** For rectangles of positive size [colliderect] is the strict overlap
    test. *)
Lemma colliderect_overlap (a b : Rect) :
  0 < rect_w a -> 0 < rect_h a -> 0 < rect_w b -> 0 < rect_h b ->
  (colliderect a b = true <-> overlap a b).
Proof.
  intros Hwa Hha Hwb Hhb. unfold colliderect, overlap.
  replace (rect_w a =? 0) with false by (symmetry; apply Z.eqb_neq; lia).
  replace (rect_h a =? 0) with false by (symmetry; apply Z.eqb_neq; lia).
  replace (rect_w b =? 0) with false by (symmetry; apply Z.eqb_neq; lia).
  replace (rect_h b =? 0) with false by (symmetry; apply Z.eqb_neq; lia).
  simpl. rewrite !andb_true_iff, !Z.ltb_lt, !Z.gtb_lt. lia.
Qed.

(** The scan reports a collision exactly when some car collides. *)
Lemma collision_check_exists (e_rect : Rect) (cars : list Car) :
  collision_check e_rect cars = true
  <-> exists c, In c cars /\ colliderect e_rect (rect c) = true.
Proof.
  induction cars as [|c rest IH]; simpl.
  - split; [discriminate|]. intros [c [[] _]].
  - destruct (colliderect e_rect (rect c)) eqn:E.
    + split; [|reflexivity]. intros _. exists c. auto.
    + rewrite IH. split.
      * intros [c' [Hc' Hx]]. exists c'. auto.
      * intros [c' [[<-|Hc'] Hx]]; [congruence|]. exists c'. auto.
Qed.

Lemma rect_size (c : Car) :
  size_ok c -> 0 < rect_w (rect c) /\ 0 < rect_h (rect c).
Proof. intros [Hw Hh]. simpl. lia. Qed.

(** C4.  The collision check of a tick reports a collision exactly when
    the rectangle of some traffic car overlaps the ego's rectangle
    strictly on both axes; rectangles that only touch do not collide:
    (0,0,40,70) and (40,0,40,70) register no collision. *)
Theorem collision_check_spec (s : World) (inp : TickInput) :
  reachable s -> valid_input inp ->
  let s1 := before_collision s inp in
  (collision_check (rect (ego s1)) (traffic s1) = true
   <-> exists c, In c (traffic s1) /\ overlap (rect (ego s1)) (rect c))
  /\ colliderect (mkRect 0 0 40 70) (mkRect 40 0 40 70) = false
  /\ ~ overlap (mkRect 0 0 40 70) (mkRect 40 0 40 70).
Proof.
  intros Hr [_ Hd] s1.
  assert (Hok : world_ok s1)
    by (apply world_ok_before_collision;
        [exact Hd|apply reachable_world_ok, Hr]).
  destruct Hok as [[_ He] [_ Ht]].
  split; [|split].
  - rewrite collision_check_exists.
    apply rect_size in He. destruct He as [Hew Heh].
    rewrite Forall_forall in Ht.
    split; intros [c [Hc Hx]]; exists c; (split; [exact Hc|]);
      destruct (rect_size c (proj2 (Ht c Hc))) as [Hcw Hch];
      apply (colliderect_overlap _ _ Hew Heh Hcw Hch); exact Hx.
  - reflexivity.
  - unfold overlap. simpl. lia.
Qed.

Lemma collision_check_spec_witness :
  reachable initial_world /\ valid_input example_input
  /\ (collision_check (rect (ego example_world)) (traffic example_world)
      = true
      <-> exists c, In c (traffic example_world)
                    /\ overlap (rect (ego example_world)) (rect c)).
Proof.
  split; [exact reachable_init|]. split; [exact example_input_valid|].
  exact (proj1 (collision_check_spec initial_world example_input
                  reachable_init example_input_valid)).
Defined.

(** The rectangles carry [int(x)] and [int(y)]: the test sees positions
    truncated to whole pixels.  An ego at y = 443.2 and a car of its lane
    at y = 373.9 have rectangles that only touch (443 = 373 + 70). *)
Example rect_truncates_positions :
  rect (mkCar 1 (4432 # 10) 6 40 70 true) = mkRect 430 443 40 70
  /\ rect (mkCar 1 (3739 # 10) 3 40 70 false) = mkRect 430 373 40 70
  /\ collision_check (rect (mkCar 1 (4432 # 10) 6 40 70 true))
                     [mkCar 1 (3739 # 10) 3 40 70 false] = false.
Proof. vm_compute. repeat split. Qed.

(** The steps before the collision check leave the counter alone. *)
Lemma collisions_handle_events (evs : list Event) (s : World) :
  collisions (handle_events evs s) = collisions s.
Proof.
  unfold handle_events. revert s.
  induction evs as [|e evs IH]; intro s; simpl; [reflexivity|].
  rewrite IH. destruct e as [|[]|]; reflexivity.
Qed.

Lemma collisions_before_collision (s : World) (inp : TickInput) :
  collisions (before_collision s inp) = collisions s.
Proof.
  unfold before_collision, before_scroll.
  set (s0 := handle_events _ _).
  assert (H0 : collisions s0 = collisions s)
    by (unfold s0; rewrite collisions_handle_events; reflexivity).
  assert (H1 : collisions (spawn_phase (draw inp) s0) = collisions s)
    by (unfold spawn_phase; destruct (Py.Qltb _ _); simpl; exact H0).
  set (s2 := update_traffic (spawn_phase (draw inp) s0)).
  assert (H2 : collisions s2 = collisions s) by exact H1.
  assert (H3 : collisions (ego_logic s2) = collisions s).
  { unfold ego_logic. destruct (autopilot s2); [|exact H2].
    destruct (controller_rule_based _ _). exact H2. }
  unfold world_scroll. destruct (Py.Qltb _ _); exact H3.
Qed.

(** C5.  When the check of a tick finds the ego colliding with at least
    one traffic car, the tick adds exactly 1 to the collision counter,
    puts the ego in lane 1 at y = 450 with speed 4.5, and empties the
    traffic; when no car collides, the counter, the ego and the traffic
    are what they were before the check. *)
Theorem collision_recovery_spec (s : World) (inp : TickInput) :
  let s1 := before_collision s inp in
  let s' := tick s inp in
  ((exists c, In c (traffic s1)
              /\ colliderect (rect (ego s1)) (rect c) = true) ->
   collisions s' = collisions s + 1
   /\ lane (ego s') = 1
   /\ y (ego s') = inject_Z (600 - 150)
   /\ (speed (ego s') == 45 # 10)%Q
   /\ traffic s' = [])
  /\ ((forall c, In c (traffic s1) ->
                 colliderect (rect (ego s1)) (rect c) = false) ->
      collisions s' = collisions s
      /\ ego s' = ego s1 /\ traffic s' = traffic s1).
Proof.
  intros s1 s'. subst s'. unfold tick. fold s1.
  pose proof (collisions_before_collision s inp) as Hc. fold s1 in Hc.
  pose proof (collision_check_exists (rect (ego s1)) (traffic s1)) as Hx.
  unfold collision_phase.
  destruct (collision_check (rect (ego s1)) (traffic s1)).
  - split.
    + intros _. simpl. rewrite Hc. repeat split; reflexivity.
    + intro Hno. exfalso.
      destruct (proj1 Hx eq_refl) as [c [Hin Hcol]].
      rewrite (Hno c Hin) in Hcol. discriminate.
  - split.
    + intro Hex. apply Hx in Hex. discriminate.
    + intros _. rewrite Hc. repeat split; reflexivity.
Qed.

(** Two cars overlap the ego in [crash_world]; the counter still goes up
    by one. *)
Example crash_world_tick :
  let s' := tick crash_world quiet_input in
  collisions s' = collisions crash_world + 1
  /\ lane (ego s') = 1 /\ traffic s' = []
  /\ List.length
       (filter (colliderect
                  (rect (ego (before_collision crash_world quiet_input))))
               (map rect
                    (traffic (before_collision crash_world quiet_input))))
     = 2%nat.
Proof. vm_compute. repeat split. Qed.

End Collision.

(** ** World-scroll normalization *)

Section Scroll.

Variable s0 : World.


Lemma world_scroll_not_taken :
  ~ (y (ego s0) < 300)%Q -> world_scroll s0 = s0.
Proof.
  intro H. unfold world_scroll.
  change (inject_Z (HEIGHT / 2)) with 300%Q.
  case_Qltb (y (ego s0)) 300%Q; [contradiction|reflexivity].
Qed.


End Scroll.


(** ** Spawn timer *)

Section Spawn.

Lemma traffic_handle_events (evs : list Event) (s : World) :
  traffic (handle_events evs s) = traffic s
  /\ time_since_spawn (handle_events evs s) = time_since_spawn s.
Proof.
  unfold handle_events. revert s.
  induction evs as [|e evs IH]; intro s; simpl; [split; reflexivity|].
  destruct (IH (handle_event s e)) as [-> ->].
  destruct e as [|[]|]; split; reflexivity.
Qed.





End Spawn.

(** ** The callers of [safe_to_change] *)

Section Callers.

Variables (cars : list Car) (e : Car).

(** An action other than "keep" names a candidate the controller found in
    range and safe. *)
Lemma controller_action_candidate :
  let action := fst (controller_rule_based cars e) in
  (action = "left"%string -> candidate_ok cars e (lane e - 1))
  /\ (action = "right"%string -> candidate_ok cars e (lane e + 1)).
Proof.
  cbv zeta. unfold controller_rule_based.
  destruct (find_vehicle_ahead cars (lane e) (y e)) as [b|];
    [|split; discriminate].
  destruct (Py.Qltb _ _); [|split; discriminate].
  simpl. replace (lane e + -1) with (lane e - 1) by lia.
  pose proof (candidate_ok_test cars e (lane e - 1)) as HL.
  pose proof (candidate_ok_test cars e (lane e + 1)) as HR.
  destruct ((0 <=? lane e - 1) && _ && _).
  - split; [intros _; apply HL; reflexivity|discriminate].
  - destruct ((0 <=? lane e + 1) && _ && _).
    + split; [discriminate|intros _; apply HR; reflexivity].
    + split; discriminate.
Qed.

Lemma snd_bind {A B : Type} (m : Calls.Traced A) (k : A -> Calls.Traced B) :
  snd (Calls.bind m k) = snd m ++ snd (k (fst m))
  /\ fst (Calls.bind m k) = fst (k (fst m)).
Proof.
  unfold Calls.bind. destruct m as [a l1]. simpl.
  destruct (k a) as [b l2]. split; reflexivity.
Qed.

(** A guarded call is logged only when its guard holds, and has the value
    of the plain [and]. *)
Lemma and_then_call (b : bool) (L : Z) (P : Z -> Prop) :
  (b = true -> P L) ->
  Forall P (snd (Calls.and_then b (Calls.call_safe_to_change cars e L)))
  /\ fst (Calls.and_then b (Calls.call_safe_to_change cars e L))
     = b && safe_to_change cars e L.
Proof.
  intro H. destruct b; simpl; split; auto.
Qed.

Lemma calls_lane_change_loop (ts : Q) (deltas : list Z) :
  Forall (fun L => 0 <= L < LANES)
         (snd (Calls.lane_change_loop cars e ts deltas))
  /\ fst (Calls.lane_change_loop cars e ts deltas)
     = lane_change_loop cars e ts deltas.
Proof.
  induction deltas as [|d rest [IH1 IH2]]; simpl; [split; auto|].
  match goal with
  | |- context [Calls.bind ?m ?k] => destruct (snd_bind m k) as [-> ->]
  end.
  destruct (and_then_call ((0 <=? lane e + d) && (lane e + d <? LANES))
              (lane e + d) (fun L => 0 <= L < LANES)) as [HF ->].
  { rewrite andb_true_iff, Z.leb_le, Z.ltb_lt. tauto. }
  destruct (_ && _ && _); simpl.
  - split; [rewrite app_nil_r; exact HF|reflexivity].
  - split; [apply Forall_app; split; assumption|exact IH2].
Qed.

Lemma calls_controller :
  Forall (fun L => 0 <= L < LANES)
         (snd (Calls.controller_rule_based cars e))
  /\ fst (Calls.controller_rule_based cars e) = controller_rule_based cars e.
Proof.
  unfold Calls.controller_rule_based, controller_rule_based.
  destruct (find_vehicle_ahead cars (lane e) (y e)) as [b|];
    [|split; [constructor|reflexivity]].
  destruct (Py.Qltb _ _); [|split; [constructor|reflexivity]].
  match goal with
  | |- context [Calls.bind ?m ?k] => destruct (snd_bind m k) as [-> ->]
  end.
  destruct (calls_lane_change_loop
              (Py.max MIN_SPEED (speed b - (1 # 2))) [-1; 1]) as [HF ->].
  split.
  - apply Forall_app. split; [exact HF|].
    destruct (lane_change_loop _ _ _ _); constructor.
  - destruct (lane_change_loop _ _ _ _); reflexivity.
Qed.

Lemma calls_lane_commit :
  Forall (fun L => 0 <= L < LANES) (snd (Calls.lane_commit cars e)).
Proof.
  unfold Calls.lane_commit.
  destruct (snd_bind (Calls.controller_rule_based cars e)
              (fun '(action, _) =>
                 Calls.bind
                   (Calls.and_then ((action =? "left")%string
                                    && (lane e >? 0))
                      (Calls.call_safe_to_change cars e (lane e - 1)))
                   (fun go_left =>
                      if go_left then Calls.ret (lane e - 1)
                      else
                        Calls.bind
                          (Calls.and_then ((action =? "right")%string
                                           && (lane e <? LANES - 1))
                             (Calls.call_safe_to_change cars e (lane e + 1)))
                          (fun go_right =>
                             if go_right then Calls.ret (lane e + 1)
                             else Calls.ret (lane e)))))
    as [-> _].
  destruct calls_controller as [HF ->].
  destruct controller_action_candidate as [HL HR].
  destruct (controller_rule_based cars e) as [action tgt]. simpl in HL, HR.
  apply Forall_app. split; [exact HF|].
  match goal with
  | |- context [Calls.bind ?m ?k] => destruct (snd_bind m k) as [-> _]
  end.
  apply Forall_app. split.
  - apply and_then_call. intro Hb. apply andb_prop in Hb.
    destruct Hb as [Hb _]. apply String.eqb_eq in Hb. apply HL, Hb.
  - destruct (fst _); [constructor|].
    match goal with
    | |- context [Calls.bind ?m ?k] => destruct (snd_bind m k) as [-> _]
    end.
    apply Forall_app. split.
    + apply and_then_call. intro Hb. apply andb_prop in Hb.
      destruct Hb as [Hb _]. apply String.eqb_eq in Hb. apply HR, Hb.
    + destruct (fst _); constructor.
Qed.

End Callers.

Lemma safe_to_change_empty_lane (cars : list Car) (e : Car) (L : Z) :
  (forall c, In c cars -> lane c <> L) -> safe_to_change cars e L = true.
Proof.
  induction cars as [|c rest IH]; intro Hno; simpl; [reflexivity|].
  replace (lane c =? L) with false
    by (symmetry; apply Z.eqb_neq, Hno; now left).
  simpl. apply IH. intros c' Hc'. apply Hno. now right.
Qed.

(** The lane the traced commit returns is the lane [ego_logic] leaves the
    ego in. *)
Lemma calls_lane_commit_fst (s : World) :
  autopilot s = true ->
  lane (ego (ego_logic s)) = fst (Calls.lane_commit (traffic s) (ego s)).
Proof.
  intro Ha. unfold ego_logic, Calls.lane_commit. rewrite Ha.
  match goal with
  | |- context [Calls.bind ?m ?k] => destruct (snd_bind m k) as [_ ->]
  end.
  destruct (calls_controller (traffic s) (ego s)) as [_ ->].
  destruct (controller_rule_based (traffic s) (ego s)) as [action tgt].
  match goal with
  | |- context [Calls.bind ?m ?k] => destruct (snd_bind m k) as [_ ->]
  end.
  destruct (and_then_call (traffic s) (ego s)
              ((action =? "left")%string && (lane (ego s) >? 0))
              (lane (ego s) - 1) (fun _ => True) (fun _ => I)) as [_ ->].
  destruct (_ && (lane (ego s) >? 0) && _); [reflexivity|].
  match goal with
  | |- context [Calls.bind ?m ?k] => destruct (snd_bind m k) as [_ ->]
  end.
  destruct (and_then_call (traffic s) (ego s)
              ((action =? "right")%string && (lane (ego s) <? LANES - 1))
              (lane (ego s) + 1) (fun _ => True) (fun _ => I)) as [_ ->].
  destruct (_ && (lane (ego s) <? LANES - 1) && _); reflexivity.
Qed.

(** C10.  [safe_to_change(L)] has a value for every integer [L] and is
    [True] whenever no traffic car has lane [L]; with every traffic car in
    a lane of the road it is therefore [True] for [-1] and for [LANES].
    It tests no bounds itself: every call the controller and the
    lane-change commit make passes a lane in [0, LANES). *)
Theorem safe_to_change_callers_guard (s : World) :
  (forall L, exists b, safe_to_change (traffic s) (ego s) L = b)
  /\ (forall L, (forall c, In c (traffic s) -> lane c <> L) ->
                safe_to_change (traffic s) (ego s) L = true)
  /\ (Forall lane_ok (traffic s) ->
      safe_to_change (traffic s) (ego s) (-1) = true
      /\ safe_to_change (traffic s) (ego s) LANES = true)
  /\ (fst (Calls.controller_rule_based (traffic s) (ego s))
      = controller_rule_based (traffic s) (ego s)
      /\ Forall (fun L => 0 <= L < LANES)
                (snd (Calls.controller_rule_based (traffic s) (ego s))))
  /\ ((autopilot s = true ->
       fst (Calls.lane_commit (traffic s) (ego s))
       = lane (ego (ego_logic s)))
      /\ Forall (fun L => 0 <= L < LANES)
                (snd (Calls.lane_commit (traffic s) (ego s)))).
Proof.
  split; [intro L; eexists; reflexivity|].
  split; [intro L; apply safe_to_change_empty_lane|].
  split; [|split].
  - intro Hl. rewrite Forall_forall in Hl. unfold lane_ok, LANES in Hl.
    split; apply safe_to_change_empty_lane; intros c Hc;
      specialize (Hl c Hc); unfold LANES; lia.
  - destruct (calls_controller (traffic s) (ego s)) as [HF HE].
    split; assumption.
  - split.
    + intro Ha. symmetry. apply calls_lane_commit_fst, Ha.
    + apply calls_lane_commit.
Qed.

(** The ego of [crash_world] blocked at a gap of 80 by a car of its lane:
    with lane 0 free the controller asks about lane 0 only and the commit
    asks about lane 0 again; with lane 0 occupied next to the ego both go
    on to lane 2. *)
Example crash_world_calls :
  snd (Calls.controller_rule_based
         [mkCar 1 300 3 40 70 false] (ego crash_world)) = [0]
  /\ snd (Calls.lane_commit
            [mkCar 1 300 3 40 70 false] (ego crash_world)) = [0; 0]
  /\ snd (Calls.lane_commit
            [mkCar 1 300 3 40 70 false; mkCar 0 400 3 40 70 false]
            (ego crash_world)) = [0; 2; 2].
Proof. vm_compute. repeat split. Qed.

(** * Further properties of the code *)

(** ** Rectangles of cars *)

(** [int] moves a number by less than one. *)
Lemma py_int_bounds (q : Q) :
  (inject_Z (Py.int q) - 1 < q < inject_Z (Py.int q) + 1)%Q.
Proof.
  destruct q as [n d]. unfold Py.int. simpl.
  pose proof (Z.quot_rem' n (Z.pos d)) as Hqr.
  assert (Hd : Z.pos d <> 0) by lia.
  pose proof (Z.rem_bound_abs n (Z.pos d) Hd) as Hr.
  set (k := Z.quot n (Z.pos d)) in *. set (r := Z.rem n (Z.pos d)) in *.
  unfold Qlt, Qminus, Qplus, Qopp, inject_Z. simpl.
  split; nia.
Qed.

(** Integers compare like the rationals they inject to. *)
Lemma inject_Z_lt (a b : Z) : a < b <-> (inject_Z a < inject_Z b)%Q.
Proof. rewrite <- Zlt_Qlt. reflexivity. Qed.

(** A car 40 wide sits 40 px inside its lane: [int(x)] is exact. *)
Lemma rect_x_lane (c : Car) :
  w c = 40 -> rect_x (rect c) = 310 + 120 * lane c.
Proof.
  intro Hw. unfold rect. cbn [rect_x]. unfold x. rewrite Hw.
  change ROAD_X with 270. change LANE_WIDTH with 120.
  change (120 - 40) with 80.
  set (a := 270 + lane c * 120).
  unfold Py.int, Qplus, Qdiv, Qmult, Qinv, inject_Z. cbn [Qnum Qden].
  change (Z.pos (1 * (1 * 2))) with 2. change (Z.pos (1 * 2)) with 2.
  replace (a * 2 + 80 * 1 * 1) with ((a + 40) * 2) by lia.
  rewrite Z.quot_mul by lia. unfold a. lia.
Qed.

(** X1.  Two cars of the standard size collide exactly when they are in
    the same lane and their truncated vertical extents overlap; cars of
    different lanes never collide. *)
Theorem colliderect_cars (a b : Car) :
  size_ok a -> size_ok b ->
  (colliderect (rect a) (rect b) = true
   <-> lane a = lane b
       /\ Py.int (y a) < Py.int (y b) + 70
       /\ Py.int (y b) < Py.int (y a) + 70)
  /\ (lane a <> lane b -> colliderect (rect a) (rect b) = false).
Proof.
  intros Ha Hb.
  destruct (rect_size a Ha) as [Haw Hah].
  destruct (rect_size b Hb) as [Hbw Hbh].
  pose proof (colliderect_overlap _ _ Haw Hah Hbw Hbh) as Hov.
  pose proof (rect_x_lane a (proj1 Ha)) as Hxa.
  pose proof (rect_x_lane b (proj1 Hb)) as Hxb.
  destruct Ha as [Hwa Hha]. destruct Hb as [Hwb Hhb].
  assert (Hiff : overlap (rect a) (rect b)
                 <-> lane a = lane b
                     /\ Py.int (y a) < Py.int (y b) + 70
                     /\ Py.int (y b) < Py.int (y a) + 70).
  { unfold overlap. rewrite Hxa, Hxb. unfold rect.
    cbn [rect_y rect_w rect_h]. rewrite Hwa, Hwb, Hha, Hhb. lia. }
  split.
  - rewrite Hov. exact Hiff.
  - intro Hne. destruct (colliderect (rect a) (rect b)); [|reflexivity].
    exfalso. apply Hne. apply Hiff, Hov. reflexivity.
Qed.

Lemma colliderect_cars_witness :
  size_ok car_a /\ size_ok car_b
  /\ colliderect (rect car_a) (rect car_b) = true.
Proof.
  assert (Ha : size_ok car_a) by (split; reflexivity).
  assert (Hb : size_ok car_b) by (split; reflexivity).
  split; [exact Ha|]. split; [exact Hb|].
  apply (proj1 (colliderect_cars car_a car_b Ha Hb)).
  vm_compute. repeat split.
Defined.

(** What a collision says about the positions themselves, and what
    positions force one. *)
Lemma colliderect_positions (a b : Car) :
  size_ok a -> size_ok b ->
  (colliderect (rect a) (rect b) = true ->
   lane a = lane b /\ (y b - 71 < y a < y b + 71)%Q)
  /\ (lane a = lane b -> (y b - 68 <= y a <= y b + 68)%Q ->
      colliderect (rect a) (rect b) = true).
Proof.
  intros Ha Hb.
  destruct (rect_size a Ha) as [Haw Hah].
  destruct (rect_size b Hb) as [Hbw Hbh].
  pose proof (colliderect_overlap _ _ Haw Hah Hbw Hbh) as Hov.
  pose proof (rect_x_lane a (proj1 Ha)) as Hxa.
  pose proof (rect_x_lane b (proj1 Hb)) as Hxb.
  destruct Ha as [Hwa Hha]. destruct Hb as [Hwb Hhb].
  pose proof (py_int_bounds (y a)) as Ba.
  pose proof (py_int_bounds (y b)) as Bb.
  rewrite Hov. unfold overlap. rewrite Hxa, Hxb. unfold rect.
  cbn [rect_y rect_w rect_h]. rewrite Hwa, Hwb, Hha, Hhb.
  split.
  - intros (H1 & H2 & H3 & H4). split; [lia|].
    assert (H3' : Py.int (y a) + 1 <= Py.int (y b) + 70) by lia.
    assert (H4' : Py.int (y b) + 1 <= Py.int (y a) + 70) by lia.
    rewrite Zle_Qle in H3', H4'.
    rewrite !inject_Z_plus in H3', H4'.
    change (inject_Z 1) with 1%Q in *. change (inject_Z 70) with 70%Q in *.
    lra.
  - intros Hl Hy. rewrite Hl.
    assert (H3 : (inject_Z (Py.int (y a)) < inject_Z (Py.int (y b) + 70))%Q)
      by (rewrite inject_Z_plus; change (inject_Z 70) with 70%Q; lra).
    assert (H4 : (inject_Z (Py.int (y b)) < inject_Z (Py.int (y a) + 70))%Q)
      by (rewrite inject_Z_plus; change (inject_Z 70) with 70%Q; lra).
    apply inject_Z_lt in H3, H4. lia.
Qed.

(** X2.  For an ego and traffic of the standard size: a reported collision
    means some car of the ego's lane is less than 71 px from the ego's
    position, and a car of the ego's lane within 68 px is always
    reported. *)
Theorem collision_check_positions (e : Car) (cars : list Car) :
  size_ok e -> Forall size_ok cars ->
  (collision_check (rect e) cars = true ->
   exists c, In c cars /\ lane c = lane e
             /\ (y c - 71 < y e < y c + 71)%Q)
  /\ ((exists c, In c cars /\ lane c = lane e
                 /\ (y c - 68 <= y e <= y c + 68)%Q) ->
      collision_check (rect e) cars = true).
Proof.
  intros He Hcars. rewrite Forall_forall in Hcars.
  rewrite collision_check_exists. split.
  - intros [c [Hc Hx]]. exists c. split; [exact Hc|].
    destruct (proj1 (colliderect_positions e c He (Hcars c Hc)) Hx)
      as [Hl Hy].
    split; [symmetry; exact Hl|exact Hy].
  - intros [c [Hc [Hl Hy]]]. exists c. split; [exact Hc|].
    apply (proj2 (colliderect_positions e c He (Hcars c Hc)));
      [symmetry; exact Hl|exact Hy].
Qed.

Lemma collision_check_positions_witness :
  size_ok car_a /\ Forall size_ok [car_far; car_b]
  /\ collision_check (rect car_a) [car_far; car_b] = true.
Proof.
  assert (Ha : size_ok car_a) by (split; reflexivity).
  assert (Hc : Forall size_ok [car_far; car_b])
    by (repeat constructor).
  split; [exact Ha|]. split; [exact Hc|].
  apply (proj2 (collision_check_positions car_a [car_far; car_b] Ha Hc)).
  exists car_b. split; [right; left; reflexivity|].
  split; [reflexivity|]. unfold car_a, car_b. simpl. lra.
Defined.

(** ** Positions, flags and counters along a run *)

Section Positions.

Lemma traffic_car_ok_shift (c : Car) (d : Q) :
  (0 <= d)%Q -> traffic_car_ok c -> traffic_car_ok (set_y c (y c + d)%Q).
Proof.
  intros Hd (Hf & Hs & Hy). repeat split; simpl; try tauto; lra.
Qed.

Lemma pos_inv_handle_events (lo hi ymax : Q) (evs : list Event) (s : World) :
  pos_inv lo hi ymax s -> pos_inv lo hi ymax (handle_events evs s).
Proof.
  unfold handle_events. revert s.
  induction evs as [|e evs IH]; intros s Hs; simpl; [exact Hs|].
  apply IH. destruct e as [|[]|]; exact Hs.
Qed.

Lemma pos_inv_spawn_phase (lo hi : Q) (d : SpawnDraw) (s : World) :
  valid_draw d -> pos_inv lo hi 808 s -> pos_inv lo hi 808 (spawn_phase d s).
Proof.
  intros (_ & Ho & Hs) (Hf & Hy & Ht). unfold spawn_phase.
  destruct (Py.Qltb _ _); [|repeat split; tauto].
  split; [exact Hf|]. split; [exact Hy|]. simpl. unfold spawn_traffic.
  apply Forall_app. split; [exact Ht|].
  constructor; [|constructor].
  assert (Hz : (inject_Z (-270) <= inject_Z (- TRAFFIC_HEIGHT
                                               - draw_offset d)
                < inject_Z 808)%Q).
  { rewrite <- Zle_Qle, <- Zlt_Qlt. unfold TRAFFIC_HEIGHT. lia. }
  change (inject_Z (-270)) with (- (270))%Q in Hz.
  change (inject_Z 808) with 808%Q in Hz.
  repeat split; simpl; tauto.
Qed.

Lemma pos_inv_update_traffic (lo hi ymax : Q) (s : World) :
  pos_inv lo hi ymax s -> pos_inv lo hi 800 (update_traffic s).
Proof.
  intros (Hf & Hy & Ht). split; [exact Hf|]. split; [exact Hy|].
  simpl. rewrite Forall_forall in *. intros c Hc.
  apply filter_In in Hc. destruct Hc as [Hc Hlt].
  apply Qltb_lt in Hlt. change (inject_Z (HEIGHT + 200)) with 800%Q in Hlt.
  apply in_map_iff in Hc. destruct Hc as [c0 [<- Hc0]].
  destruct (Ht c0 Hc0) as [Hok _].
  split; [|exact Hlt].
  apply traffic_car_ok_shift; [|exact Hok].
  destruct Hok as (_ & Hs & _). lra.
Qed.

Lemma pos_inv_ego_logic (lo hi ymax : Q) (s : World) :
  pos_inv lo hi ymax s -> pos_inv lo hi ymax (ego_logic s).
Proof.
  intros (Hf & Hy & Ht). unfold ego_logic.
  destruct (autopilot s); [|repeat split; tauto].
  destruct (controller_rule_based (traffic s) (ego s)) as [action tgt].
  destruct (_ && (lane (ego s) >? 0) && _);
    [|destruct (_ && (lane (ego s) <? LANES - 1) && _)];
    (split; [exact Hf|split; [exact Hy|exact Ht]]).
Qed.

Lemma pos_inv_ego_move (ymax : Q) (s : World) :
  speed_ok (ego s) ->
  pos_inv 300 450 ymax s -> pos_inv 292 450 ymax (ego_move s).
Proof.
  intros Hs (Hf & Hy & Ht). split; [exact Hf|]. split; [|exact Ht].
  unfold speed_ok in Hs. simpl. lra.
Qed.

Lemma pos_inv_world_scroll (s : World) :
  pos_inv 292 450 800 s -> pos_inv 300 450 808 (world_scroll s).
Proof.
  intros (Hf & Hy & Ht). unfold world_scroll.
  change (inject_Z (HEIGHT / 2)) with 300%Q.
  case_Qltb (y (ego s)) 300%Q.
  - split; [exact Hf|]. split; [simpl; lra|]. simpl.
    rewrite Forall_forall in *. intros c Hc.
    apply in_map_iff in Hc. destruct Hc as [c0 [<- Hc0]].
    destruct (Ht c0 Hc0) as [Hok Hlt]. split.
    + apply traffic_car_ok_shift; [lra|exact Hok].
    + simpl. lra.
  - split; [exact Hf|]. split; [lra|].
    eapply Forall_impl; [|exact Ht]. intros c [Hok Hlt]. split; [exact Hok|].
    lra.
Qed.

Lemma pos_inv_collision_phase (s : World) :
  pos_inv 300 450 808 s -> pos_inv 300 450 808 (collision_phase s).
Proof.
  intros (Hf & Hy & Ht). unfold collision_phase.
  destruct (collision_check _ _); [|repeat split; tauto].
  split; [exact Hf|]. split; [|constructor].
  simpl. change (inject_Z EGO_START_Y) with 450%Q. lra.
Qed.

(** The state on which the collision check runs. *)
Lemma pos_inv_before_collision (s : World) (inp : TickInput) :
  valid_input inp -> world_ok s -> pos_inv 300 450 808 s ->
  pos_inv 300 450 808 (before_collision s inp).
Proof.
  intros [_ Hd] Hok Hs. unfold before_collision, before_scroll.
  set (s0 := handle_events (events inp) (begin_tick (tick_ms inp) s)).
  assert (Hok0 : world_ok s0)
    by (apply world_ok_handle_events, world_ok_begin_tick, Hok).
  assert (Hs0 : pos_inv 300 450 808 s0)
    by (apply pos_inv_handle_events; exact Hs).
  set (s2 := update_traffic (spawn_phase (draw inp) s0)).
  assert (Hok2 : world_ok (ego_logic s2))
    by (apply world_ok_ego_logic, world_ok_update_traffic,
          world_ok_spawn_phase; assumption).
  apply pos_inv_world_scroll, pos_inv_ego_move; [apply Hok2|].
  apply pos_inv_ego_logic.
  apply (pos_inv_update_traffic 300 450 808), pos_inv_spawn_phase;
    assumption.
Qed.

Lemma pos_inv_initial : pos_inv 300 450 808 initial_world.
Proof.
  split; [reflexivity|]. split; [|constructor].
  simpl. change (inject_Z EGO_START_Y) with 450%Q. lra.
Qed.

Lemma reachable_pos_inv (s : World) : reachable s -> pos_inv 300 450 808 s.
Proof.
  induction 1 as [|s inp Hr IH _ Hin].
  - exact pos_inv_initial.
  - apply pos_inv_collision_phase, pos_inv_before_collision;
      [exact Hin|apply reachable_world_ok, Hr|exact IH].
Qed.

Lemma frames_handle_events (evs : list Event) (s : World) :
  frames (handle_events evs s) = frames s.
Proof.
  unfold handle_events. revert s.
  induction evs as [|e evs IH]; intro s; simpl; [reflexivity|].
  rewrite IH. destruct e as [|[]|]; reflexivity.
Qed.

Lemma frames_tick (s : World) (inp : TickInput) :
  frames (tick s inp) = frames s + 1.
Proof.
  unfold tick, before_collision, before_scroll.
  set (s0 := handle_events _ _).
  assert (H0 : frames s0 = frames s + 1)
    by (unfold s0; rewrite frames_handle_events; reflexivity).
  assert (H1 : frames (spawn_phase (draw inp) s0) = frames s + 1)
    by (unfold spawn_phase; destruct (Py.Qltb _ _); simpl; exact H0).
  set (s2 := update_traffic (spawn_phase (draw inp) s0)).
  assert (H2 : frames s2 = frames s + 1) by exact H1.
  assert (H3 : frames (ego_logic s2) = frames s + 1).
  { unfold ego_logic. destruct (autopilot s2); [|exact H2].
    destruct (controller_rule_based _ _). exact H2. }
  assert (H4 : frames (world_scroll (ego_move (ego_logic s2)))
               = frames s + 1)
    by (unfold world_scroll; destruct (Py.Qltb _ _); exact H3).
  unfold collision_phase. destruct (collision_check _ _); exact H4.
Qed.

Lemma collisions_tick (s : World) (inp : TickInput) :
  collisions (tick s inp) = collisions s
  \/ collisions (tick s inp) = collisions s + 1.
Proof.
  pose proof (collisions_before_collision s inp) as Hc.
  unfold tick, collision_phase.
  destruct (collision_check _ _); simpl; [right|left]; lia.
Qed.

End Positions.

(** X3.  A tick always counts one frame and at most one collision, and
    never lowers the collision count; so in every state the loop reaches
    the collision count is between 0 and the frame count. *)
Theorem counters_spec (s : World) :
  reachable s ->
  0 <= collisions s <= frames s
  /\ (forall inp,
        frames (tick s inp) = frames s + 1
        /\ collisions s <= collisions (tick s inp) <= collisions s + 1).
Proof.
  intro Hr. split.
  - induction Hr as [|s inp Hr IH _ _]; [simpl; lia|].
    rewrite frames_tick. destruct (collisions_tick s inp); lia.
  - intro inp. split; [apply frames_tick|].
    destruct (collisions_tick s inp); lia.
Qed.

Lemma counters_spec_witness :
  reachable example_world
  /\ 0 <= collisions example_world <= frames example_world.
Proof.
  split; [exact example_world_reachable|].
  exact (proj1 (counters_spec example_world example_world_reachable)).
Defined.

(** X4.  In every state the loop reaches the ego is between the middle of
    the window and its start line: [300 <= ego.y <= 450]. *)
Theorem ego_y_in_range (s : World) :
  reachable s -> (300 <= y (ego s) <= 450)%Q.
Proof.
  intro Hr. apply (reachable_pos_inv s Hr).
Qed.

Lemma ego_y_in_range_witness :
  reachable example_world /\ (300 <= y (ego example_world) <= 450)%Q.
Proof.
  split; [exact example_world_reachable|].
  exact (ego_y_in_range example_world example_world_reachable).
Defined.

(** X5.  In every state the loop reaches, the ego carries the ego flag and
    no traffic car does; every traffic car is 40 x 70, keeps a speed in
    [2.5, 6.5], and is between the highest spawn position and the culling
    line pushed down by one scroll: [-270 <= y < 808]. *)
Theorem traffic_cars_spec (s : World) :
  reachable s ->
  is_ego (ego s) = true
  /\ Forall (fun c =>
               is_ego c = false
               /\ w c = 40 /\ h c = 70
               /\ ((25 # 10) <= speed c <= (65 # 10))%Q
               /\ (- (270) <= y c < 808)%Q)
            (traffic s).
Proof.
  intro Hr.
  destruct (reachable_pos_inv s Hr) as (Hf & _ & Ht).
  destruct (reachable_world_ok s Hr) as (_ & _ & Hok).
  split; [exact Hf|].
  rewrite Forall_forall in *. intros c Hc.
  destruct (Ht c Hc) as [(Hfc & Hs & Hy) Hlt].
  destruct (Hok c Hc) as [_ [Hw Hh]].
  repeat split; try assumption; lra.
Qed.

Lemma traffic_cars_spec_witness :
  reachable example_world
  /\ Forall (fun c =>
               is_ego c = false
               /\ w c = 40 /\ h c = 70
               /\ ((25 # 10) <= speed c <= (65 # 10))%Q
               /\ (- (270) <= y c < 808)%Q)
            (traffic example_world).
Proof.
  split; [exact example_world_reachable|].
  exact (proj2 (traffic_cars_spec example_world example_world_reachable)).
Defined.

(** ** Events *)

Section Events.

(** What the steps after the event loop leave alone. *)
Lemma flags_after_events (d : SpawnDraw) (s0 : World) :
  let s' := collision_phase
              (world_scroll
                 (ego_move (ego_logic (update_traffic (spawn_phase d s0)))))
  in running s' = running s0 /\ autopilot s' = autopilot s0.
Proof.
  cbv zeta.
  set (s2 := update_traffic (spawn_phase d s0)).
  assert (H2 : running s2 = running s0 /\ autopilot s2 = autopilot s0)
    by (unfold s2, spawn_phase; destruct (Py.Qltb _ _); split; reflexivity).
  assert (H3 : running (ego_logic s2) = running s0
               /\ autopilot (ego_logic s2) = autopilot s0).
  { destruct H2 as [<- <-]. unfold ego_logic.
    destruct (autopilot s2) eqn:Ea.
    - destruct (controller_rule_based _ _). simpl.
      split; [reflexivity|exact Ea].
    - split; [reflexivity|exact Ea]. }
  set (s3 := ego_logic s2) in *.
  assert (H4 : running (world_scroll (ego_move s3)) = running s0
               /\ autopilot (world_scroll (ego_move s3)) = autopilot s0)
    by (unfold world_scroll; destruct (Py.Qltb _ _); exact H3).
  unfold collision_phase. destruct (collision_check _ _); exact H4.
Qed.

Lemma running_handle_events (evs : list Event) (s : World) :
  running (handle_events evs s) = running s && negb (existsb is_quit evs).
Proof.
  unfold handle_events. revert s.
  induction evs as [|e evs IH]; intro s; simpl.
  - rewrite andb_true_r. reflexivity.
  - rewrite IH. destruct e as [|[]|]; simpl;
      try reflexivity; try (rewrite andb_false_r; reflexivity).
Qed.

Lemma autopilot_handle_events (evs : list Event) (s : World) :
  autopilot (handle_events evs s)
  = xorb (autopilot s) (Nat.odd (toggles evs)).
Proof.
  unfold handle_events, toggles. revert s.
  induction evs as [|e evs IH]; intro s; simpl.
  - rewrite xorb_false_r. reflexivity.
  - rewrite IH. destruct e as [|[]|]; simpl; try reflexivity.
    rewrite Nat.odd_succ, <- Nat.negb_odd.
    destruct (autopilot s), (Nat.odd _); reflexivity.
Qed.

End Events.

(** X6.  After a tick the loop keeps running exactly when it was running
    and the queue held no QUIT event, and the autopilot flag has flipped
    once per space-bar event of the queue: nothing else in the loop body
    writes the two flags. *)
Theorem event_flags_spec (s : World) (inp : TickInput) :
  running (tick s inp)
  = running s && negb (existsb is_quit (events inp))
  /\ autopilot (tick s inp)
     = xorb (autopilot s) (Nat.odd (toggles (events inp))).
Proof.
  unfold tick, before_collision, before_scroll.
  destruct (flags_after_events (draw inp)
              (handle_events (events inp) (begin_tick (tick_ms inp) s)))
    as [-> ->].
  rewrite running_handle_events, autopilot_handle_events. split; reflexivity.
Qed.


(** ** The controller and the autopilot step *)

Section Autopilot.

Lemma find_vehicle_ahead_In (cars : list Car) (L : Z) (Y : Q) (v : Car) :
  find_vehicle_ahead cars L Y = Some v -> In v cars /\ ahead_of L Y v.
Proof.
  unfold find_vehicle_ahead.
  pose proof (ahead_filter_In cars L Y) as HF.
  destruct (filter _ cars) as [|c0 rest]; [discriminate|].
  intro Hv. injection Hv as <-. apply HF.
  apply (min_by_spec (fun c => (Y - bottom c)%Q) rest c0).
Qed.

(** The result of the controller, case by case. *)
Lemma controller_cases (cars : list Car) (e : Car) :
  controller_rule_based cars e = ("keep"%string, MAX_SPEED)
  \/ exists b, In b cars
       /\ snd (controller_rule_based cars e)
          = Py.max MIN_SPEED (speed b - (1 # 2))
       /\ (fst (controller_rule_based cars e) = "left"%string
           \/ fst (controller_rule_based cars e) = "right"%string
           \/ fst (controller_rule_based cars e) = "keep"%string).
Proof.
  unfold controller_rule_based.
  destruct (find_vehicle_ahead cars (lane e) (y e)) as [b|] eqn:Ef;
    [|left; reflexivity].
  destruct (Py.Qltb _ _); [|left; reflexivity].
  right. exists b. split; [apply (find_vehicle_ahead_In _ _ _ _ Ef)|].
  simpl.
  destruct (_ && _ && safe_to_change cars e (lane e + -1)); simpl; [auto|].
  destruct (_ && _ && safe_to_change cars e (lane e + 1)); simpl; auto.
Qed.

Lemma controller_target_min (cars : list Car) (e : Car) :
  (2 <= snd (controller_rule_based cars e))%Q.
Proof.
  destruct (controller_cases cars e) as [->|[b [_ [-> _]]]].
  - simpl. unfold MAX_SPEED. lra.
  - apply (py_max_spec MIN_SPEED (speed b - (1 # 2))).
Qed.

(** The speed the autopilot step leaves the ego with. *)
Lemma ego_logic_speed (s : World) :
  autopilot s = true ->
  speed (ego (ego_logic s))
  = Py.max (1 # 2)
      (Py.min MAX_SPEED
         (speed (ego s)
          + (snd (controller_rule_based (traffic s) (ego s))
             - speed (ego s)) * (8 # 100)))%Q.
Proof.
  intro Ha. unfold ego_logic. rewrite Ha.
  destruct (controller_rule_based (traffic s) (ego s)) as [action tgt].
  destruct (_ && (lane (ego s) >? 0) && _);
    [|destruct (_ && (lane (ego s) <? LANES - 1) && _)]; reflexivity.
Qed.

End Autopilot.

(** X8.  The lane-change commit never rejects what the controller decided
    and never acts on its own: under autopilot the ego ends the step in
    lane - 1 for "left", lane + 1 for "right" and its own lane for "keep";
    a changed lane is a lane of the road that [safe_to_change] accepts;
    the step moves neither the ego nor the traffic. *)
Theorem ego_logic_commit (s : World) :
  autopilot s = true ->
  let action := fst (controller_rule_based (traffic s) (ego s)) in
  let lane' := lane (ego (ego_logic s)) in
  (action = "left"%string -> lane' = lane (ego s) - 1)
  /\ (action = "right"%string -> lane' = lane (ego s) + 1)
  /\ (action = "keep"%string -> lane' = lane (ego s))
  /\ (lane' <> lane (ego s) ->
      0 <= lane' < LANES
      /\ safe_to_change (traffic s) (ego s) lane' = true)
  /\ y (ego (ego_logic s)) = y (ego s)
  /\ traffic (ego_logic s) = traffic s.
Proof.
  intros Ha action lane'. subst action lane'.
  destruct (controller_action_candidate (traffic s) (ego s)) as [HL HR].
  unfold ego_logic. rewrite Ha.
  destruct (controller_rule_based (traffic s) (ego s)) as [action tgt].
  simpl in HL, HR. simpl fst.
  destruct (String.eqb_spec action "left") as [El|El].
  - destruct (HL El) as [[Hlo Hhi] Hsafe].
    replace (lane (ego s) >? 0) with true by (symmetry; apply Z.gtb_lt; lia).
    rewrite Hsafe. simpl. subst action.
    split; [reflexivity|]. split; [discriminate|]. split; [discriminate|].
    split; [intros _; split; [lia|exact Hsafe]|split; reflexivity].
  - cbn [andb].
    destruct (String.eqb_spec action "right") as [Er|Er].
    + destruct (HR Er) as [[Hlo Hhi] Hsafe].
      replace (lane (ego s) <? LANES - 1) with true
        by (symmetry; apply Z.ltb_lt; lia).
      rewrite Hsafe. simpl. subst action.
      split; [discriminate|]. split; [reflexivity|]. split; [discriminate|].
      split; [intros _; split; [lia|exact Hsafe]|split; reflexivity].
    + simpl.
      split; [intro; contradiction|]. split; [intro; contradiction|].
      split; [reflexivity|].
      split; [intro Hne; exfalso; apply Hne; reflexivity|split; reflexivity].
Qed.

Lemma ego_logic_commit_witness :
  autopilot blocked_world = true
  /\ lane (ego (ego_logic blocked_world)) = lane (ego blocked_world) - 1.
Proof.
  split; [reflexivity|].
  apply (proj1 (ego_logic_commit blocked_world eq_refl)).
  reflexivity.
Defined.

(** X9.  The controller's action is "keep", "left" or "right" and its
    target speed is never below MIN_SPEED = 2.0.  With no traffic car
    faster than 6.5 the target is either MAX_SPEED = 8.0 with "keep", or at
    most 6.0: a lane change always comes with a reduced target. *)
Theorem controller_result_spec (cars : list Car) (e : Car) :
  let r := controller_rule_based cars e in
  (fst r = "keep"%string \/ fst r = "left"%string \/ fst r = "right"%string)
  /\ (2 <= snd r)%Q
  /\ (Forall (fun c => (speed c <= 65 # 10)%Q) cars ->
      r = ("keep"%string, 8%Q) \/ (snd r <= 6)%Q).
Proof.
  cbv zeta. split; [|split].
  - destruct (controller_cases cars e) as [->|[b [_ [_ H]]]]; simpl; tauto.
  - apply controller_target_min.
  - intro Hsp. rewrite Forall_forall in Hsp.
    destruct (controller_cases cars e) as [->|[b [Hb [-> _]]]];
      [left; reflexivity|right].
    specialize (Hsp b Hb). unfold Py.max, MIN_SPEED.
    case_Qltb 2%Q (speed b - (1 # 2))%Q; lra.
Qed.



Section SpeedFloor.

Lemma speed_floor_handle_events (evs : list Event) (s : World) :
  existsb (is_key K_DOWN) evs = false ->
  (2 <= speed (ego s))%Q -> (2 <= speed (ego (handle_events evs s)))%Q.
Proof.
  unfold handle_events. revert s.
  induction evs as [|e evs IH]; intros s Hno Hs; simpl; [exact Hs|].
  simpl in Hno. apply orb_false_elim in Hno. destruct Hno as [He Hno].
  apply IH; [exact Hno|].
  destruct e as [|[]|]; simpl; try exact Hs; try discriminate.
  unfold Py.min, MAX_SPEED.
  case_Qltb (speed (ego s) + (1 # 2))%Q 8%Q; lra.
Qed.

Lemma speed_floor_ego_logic (s : World) :
  (2 <= speed (ego s))%Q -> (2 <= speed (ego (ego_logic s)))%Q.
Proof.
  intro Hs. destruct (autopilot s) eqn:Ha.
  - rewrite (ego_logic_speed s Ha).
    pose proof (controller_target_min (traffic s) (ego s)) as Ht.
    set (t := snd (controller_rule_based (traffic s) (ego s))) in *.
    set (v := (speed (ego s) + (t - speed (ego s)) * (8 # 100))%Q).
    assert (Hv : (2 <= v)%Q) by (unfold v; lra).
    unfold Py.max, Py.min, MAX_SPEED.
    case_Qltb v 8%Q.
    + case_Qltb (1 # 2)%Q v; lra.
    + case_Qltb (1 # 2)%Q 8%Q; lra.
  - unfold ego_logic. rewrite Ha. exact Hs.
Qed.

(** After the autopilot step only the collision reset writes the speed. *)
Lemma speed_after_logic (s : World) :
  let s' := collision_phase (world_scroll (ego_move s)) in
  speed (ego s') = speed (ego s) \/ speed (ego s') = 45 # 10.
Proof.
  cbv zeta.
  assert (H : speed (ego (world_scroll (ego_move s))) = speed (ego s))
    by (unfold world_scroll; destruct (Py.Qltb _ _); reflexivity).
  unfold collision_phase. destruct (collision_check _ _); [right|left].
  - reflexivity.
  - exact H.
Qed.

Lemma ego_before_logic (d : SpawnDraw) (s : World) :
  ego (update_traffic (spawn_phase d s)) = ego s.
Proof.
  unfold update_traffic, spawn_phase. destruct (Py.Qltb _ _); reflexivity.
Qed.

End SpeedFloor.

(** X11.  Only the down key takes the ego below MIN_SPEED: from a speed of
    at least 2.0, a tick whose queue holds no down-key event ends with a
    speed of at least 2.0, whatever the autopilot, the traffic and the
    other keys do. *)
Theorem speed_floor_without_down (s : World) (inp : TickInput) :
  (2 <= speed (ego s))%Q ->
  existsb (is_key K_DOWN) (events inp) = false ->
  (2 <= speed (ego (tick s inp)))%Q.
Proof.
  intros Hs Hno. unfold tick, before_collision, before_scroll.
  set (s0 := handle_events (events inp) (begin_tick (tick_ms inp) s)).
  assert (H0 : (2 <= speed (ego s0))%Q)
    by (apply speed_floor_handle_events; [exact Hno|exact Hs]).
  set (s2 := update_traffic (spawn_phase (draw inp) s0)).
  assert (H2 : (2 <= speed (ego s2))%Q)
    by (unfold s2; rewrite ego_before_logic; exact H0).
  apply speed_floor_ego_logic in H2.
  destruct (speed_after_logic (ego_logic s2)) as [-> | ->]; [exact H2|lra].
Qed.

Lemma speed_floor_without_down_witness :
  (2 <= speed (ego initial_world))%Q
  /\ existsb (is_key K_DOWN) (events no_down_input) = false
  /\ (2 <= speed (ego (tick initial_world no_down_input)))%Q.
Proof.
  assert (Hs : (2 <= speed (ego initial_world))%Q) by (simpl; lra).
  split; [exact Hs|]. split; [reflexivity|].
  exact (speed_floor_without_down initial_world no_down_input Hs eq_refl).
Defined.

(** ** The traffic as an unordered collection *)

(** X12.  The lane-safety query and the collision check do not depend on
    the order of the traffic list. *)
Theorem queries_permutation (cars cars' : list Car) (e : Car) :
  Permutation cars cars' ->
  (forall L, safe_to_change cars e L = safe_to_change cars' e L)
  /\ (forall r, collision_check r cars = collision_check r cars').
Proof.
  intro Hp. split.
  - intro L.
    induction Hp as [|c l l' _ IH|c d l|l l' l'' _ IH1 _ IH2]; simpl.
    + reflexivity.
    + rewrite IH. reflexivity.
    + destruct (_ && _); destruct (_ && _); reflexivity.
    + congruence.
  - intro r.
    induction Hp as [|c l l' _ IH|c d l|l l' l'' _ IH1 _ IH2]; simpl.
    + reflexivity.
    + rewrite IH. reflexivity.
    + destruct (colliderect r (rect d)), (colliderect r (rect c));
        reflexivity.
    + congruence.
Qed.

Lemma queries_permutation_witness :
  Permutation [car_far; car_b] [car_b; car_far]
  /\ collision_check (rect car_a) [car_far; car_b]
     = collision_check (rect car_a) [car_b; car_far].
Proof.
  split; [apply perm_swap|].
  exact (proj2 (queries_permutation [car_far; car_b] [car_b; car_far] car_a
                  (perm_swap car_b car_far [])) (rect car_a)).
Defined.

(** ** Moving the whole scene *)

Section Shift.

Variable d : Q.

(** A comparison depends only on the difference of its operands. *)
Lemma Qltb_shift (a b a' b' : Q) :
  (a' - b' == a - b)%Q -> Py.Qltb a' b' = Py.Qltb a b.
Proof.
  intro H. case_Qltb a b.
  - apply Qltb_lt. lra.
  - apply Qltb_ge. lra.
Qed.

Lemma bottom_shift (c : Car) : (bottom (shift_car d c) == bottom c + d)%Q.
Proof. unfold bottom, shift_car. simpl. ring. Qed.

Lemma safe_to_change_shift (cars : list Car) (e : Car) (L : Z) :
  safe_to_change (map (shift_car d) cars) (shift_car d e) L
  = safe_to_change cars e L.
Proof.
  induction cars as [|c rest IH]; simpl; [reflexivity|].
  rewrite IH.
  rewrite (Qltb_shift (y e - buffer_above) (bottom c)
             (y e + d - buffer_above) (bottom (shift_car d c)))
    by (rewrite bottom_shift; ring).
  rewrite (Qltb_shift (y c) (y e + buffer_below)
             (y c + d) (y e + d + buffer_below)) by ring.
  reflexivity.
Qed.




Lemma lane_change_loop_shift (cars : list Car) (e : Car) (ts : Q)
    (deltas : list Z) :
  lane_change_loop (map (shift_car d) cars) (shift_car d e) ts deltas
  = lane_change_loop cars e ts deltas.
Proof.
  induction deltas as [|dd rest IH]; simpl; [reflexivity|].
  rewrite IH, safe_to_change_shift. reflexivity.
Qed.


End Shift.


(** ** The sensor read-out *)

Section Sensors.




End Sensors.


(** ** Lane changes and collisions *)

Section LaneChange.

(** What [safe_to_change] returning [True] says about each car of the
    lane. *)
Lemma safe_to_change_true (cars : list Car) (e : Car) (L : Z) (c : Car) :
  safe_to_change cars e L = true -> In c cars -> lane c = L ->
  (bottom c <= y e - 40)%Q \/ (y e + 80 <= y c)%Q.
Proof.
  induction cars as [|c0 rest IH]; simpl; [intros _ []|].
  intros Hs [->|Hin] Hl.
  - rewrite (proj2 (Z.eqb_eq _ _) Hl) in Hs. simpl in Hs.
    unfold buffer_above, buffer_below in Hs.
    case_Qltb (y e - 40)%Q (bottom c); [|left; exact E].
    case_Qltb (y c) (y e + 80)%Q; [discriminate|right; exact E0].
  - destruct (_ && _); [discriminate|]. apply IH; assumption.
Qed.

(** The autopilot step changes the lane only to a lane [safe_to_change]
    accepts; it moves nothing. *)
Lemma ego_logic_frame (s : World) :
  traffic (ego_logic s) = traffic s
  /\ y (ego (ego_logic s)) = y (ego s)
  /\ (lane (ego (ego_logic s)) <> lane (ego s) ->
      safe_to_change (traffic s) (ego s) (lane (ego (ego_logic s))) = true).
Proof.
  unfold ego_logic. destruct (autopilot s);
    [|split; [reflexivity|split; [reflexivity|intro H; contradiction]]].
  destruct (controller_rule_based (traffic s) (ego s)) as [action tgt].
  destruct (_ && (lane (ego s) >? 0) && _) eqn:EL;
    [|destruct (_ && (lane (ego s) <? LANES - 1) && _) eqn:ER]; simpl;
    (split; [reflexivity|split; [reflexivity|]]).
  - intros _. apply andb_prop in EL. apply EL.
  - intros _. apply andb_prop in ER. apply ER.
  - intro H. contradiction.
Qed.

(** The scroll keeps every car, its lane and size, and its position
    relative to the ego. *)
Lemma world_scroll_relative (s : World) (c' : Car) :
  In c' (traffic (world_scroll s)) ->
  exists c, In c (traffic s)
            /\ lane c' = lane c /\ w c' = w c /\ h c' = h c
            /\ (y c' - y (ego (world_scroll s)) == y c - y (ego s))%Q.
Proof.
  unfold world_scroll. destruct (Py.Qltb _ _); simpl.
  - intro Hc. apply in_map_iff in Hc. destruct Hc as [c [<- Hc]].
    exists c. simpl. repeat split; try assumption. ring.
  - intro Hc. exists c'. repeat split; assumption.
Qed.

Lemma world_scroll_ego (s : World) :
  lane (ego (world_scroll s)) = lane (ego s)
  /\ w (ego (world_scroll s)) = w (ego s)
  /\ h (ego (world_scroll s)) = h (ego s).
Proof.
  unfold world_scroll. destruct (Py.Qltb _ _); repeat split.
Qed.

(** After a lane change of the autopilot step, the collision check that
    follows the ego's move and the scroll finds nothing. *)
Lemma lane_change_no_collision (s : World) :
  world_ok s ->
  lane (ego (ego_logic s)) <> lane (ego s) ->
  let s' := world_scroll (ego_move (ego_logic s)) in
  collision_check (rect (ego s')) (traffic s') = false.
Proof.
  intros Hok Hch s'.
  pose proof (world_ok_ego_logic s Hok) as Hok3.
  destruct (ego_logic_frame s) as (Htr & Hy & Hsafe).
  specialize (Hsafe Hch).
  destruct Hok as (_ & _ & Hcars).
  destruct Hok3 as ((_ & Hsz) & Hsp & _).
  rewrite Forall_forall in Hcars.
  destruct (collision_check (rect (ego s')) (traffic s')) eqn:Ec;
    [|reflexivity].
  exfalso. apply collision_check_exists in Ec.
  destruct Ec as [c' [Hc' Hx]].
  destruct (world_scroll_relative _ c' Hc') as (c & Hc & Hl & Hw & Hh & Hrel).
  destruct (world_scroll_ego (ego_move (ego_logic s))) as (Hel & Hew & Heh).
  fold s' in Hrel, Hel, Hew, Heh.
  simpl in Hc, Hrel, Hel, Hew, Heh. rewrite Htr in Hc.
  destruct (Hcars c Hc) as [_ [Hcw Hch70]].
  assert (Hse : size_ok (ego s'))
    by (destruct Hsz as [H1 H2]; split; congruence).
  assert (Hsc : size_ok c') by (split; congruence).
  destruct (proj1 (colliderect_positions (ego s') c' Hse Hsc) Hx)
    as [Hlane Hnear].
  assert (Hlc : lane c = lane (ego (ego_logic s))) by congruence.
  destruct (safe_to_change_true _ _ _ c Hsafe Hc Hlc) as [Hb|Hb];
    unfold bottom in Hb; rewrite ?Hch70 in Hb;
    change (inject_Z 70) with 70%Q in Hb;
    unfold speed_ok in Hsp; rewrite Hy in Hrel; lra.
Qed.

End LaneChange.

(** X15.  A lane change made by the autopilot is never followed by a
    collision in the same tick: when the ego logic of a tick changes the
    ego's lane, the tick records no collision, the ego ends the tick in
    the new lane, and the traffic is not cleared. *)
Theorem lane_change_collision_free (s : World) (inp : TickInput) :
  world_ok s -> valid_input inp ->
  let s2 := before_logic s inp in
  lane (ego (ego_logic s2)) <> lane (ego s2) ->
  collisions (tick s inp) = collisions s
  /\ lane (ego (tick s inp)) = lane (ego (ego_logic s2))
  /\ traffic (tick s inp) = traffic (before_collision s inp).
Proof.
  intros Hok [_ Hd] s2 Hch.
  assert (Hok2 : world_ok s2).
  { unfold s2, before_logic.
    apply world_ok_update_traffic, world_ok_spawn_phase; [exact Hd|].
    apply world_ok_handle_events, world_ok_begin_tick, Hok. }
  pose proof (lane_change_no_collision s2 Hok2 Hch) as Hno.
  pose proof (collisions_before_collision s inp) as Hc.
  destruct (world_scroll_ego (ego_move (ego_logic s2))) as (Hel & _).
  unfold tick, collision_phase.
  change (before_collision s inp)
    with (world_scroll (ego_move (ego_logic s2))) in *.
  cbv zeta in Hno. rewrite Hno.
  split; [exact Hc|]. split; [exact Hel|reflexivity].
Qed.

Lemma blocked_world_ok : world_ok blocked_world.
Proof.
  unfold world_ok, car_ok, lane_ok, speed_ok, size_ok, LANES. simpl.
  repeat split; try lia; try lra.
  repeat constructor; simpl; lia.
Defined.

Lemma lane_change_collision_free_witness :
  world_ok blocked_world /\ valid_input quiet_input
  /\ lane (ego (tick blocked_world quiet_input)) = 0
  /\ collisions (tick blocked_world quiet_input) = 0.
Proof.
  assert (Hv : valid_input quiet_input).
  { unfold valid_input, valid_draw, LANES. simpl.
    repeat split; try lia; lra. }
  assert (Hch : lane (ego (ego_logic (before_logic blocked_world
                                                   quiet_input)))
                <> lane (ego (before_logic blocked_world quiet_input)))
    by (vm_compute; discriminate).
  split; [exact blocked_world_ok|]. split; [exact Hv|].
  destruct (lane_change_collision_free blocked_world quiet_input
              blocked_world_ok Hv Hch) as (Hc & Hl & _).
  split; [rewrite Hl; reflexivity|rewrite Hc; reflexivity].
Defined.

Section AfterReset.

Lemma ego_y_handle_events (evs : list Event) (s : World) :
  y (ego (handle_events evs s)) = y (ego s).
Proof.
  unfold handle_events. revert s.
  induction evs as [|e evs IH]; intro s; simpl; [reflexivity|].
  rewrite IH. destruct e as [|[]|]; reflexivity.
Qed.

(** From an empty road the only car a tick can put on it is the one it
    spawns, still above the window after its first move. *)
Lemma traffic_from_empty (d : SpawnDraw) (s : World) :
  valid_draw d -> traffic s = [] ->
  Forall (fun c => (y c <= - (127 # 2))%Q)
         (traffic (update_traffic (spawn_phase d s))).
Proof.
  intros (_ & Ho & Hs) Ht.
  assert (Hz : (inject_Z (- TRAFFIC_HEIGHT - draw_offset d)
                <= inject_Z (-70))%Q)
    by (rewrite <- Zle_Qle; unfold TRAFFIC_HEIGHT; lia).
  change (inject_Z (-70)) with (- (70))%Q in Hz.
  unfold spawn_phase.
  destruct (Py.Qltb _ _); unfold update_traffic, spawn_traffic;
    cbn [traffic with_traffic]; rewrite Ht; [|constructor].
  cbn [app map filter].
  destruct (Py.Qltb _ _); constructor; [|constructor].
  cbn [y set_y speed]. lra.
Qed.

(** The tick after a reset: nothing on the road is near the ego when the
    collision check runs. *)
Lemma quiet_after_reset (s : World) (inp : TickInput) :
  world_ok s -> valid_input inp ->
  traffic s = [] -> (y (ego s) == 450)%Q ->
  collision_check (rect (ego (before_collision s inp)))
                  (traffic (before_collision s inp)) = false.
Proof.
  intros Hok [_ Hd] Ht Hy.
  unfold before_collision, before_scroll.
  set (s0 := handle_events (events inp) (begin_tick (tick_ms inp) s)).
  assert (Hok0 : world_ok s0)
    by (apply world_ok_handle_events, world_ok_begin_tick, Hok).
  assert (Ht0 : traffic s0 = [])
    by (unfold s0; rewrite (proj1 (traffic_handle_events _ _)); exact Ht).
  assert (Hy0 : (y (ego s0) == 450)%Q)
    by (unfold s0; rewrite ego_y_handle_events; exact Hy).
  pose proof (traffic_from_empty (draw inp) s0 Hd Ht0) as Hfar.
  pose proof (ego_before_logic (draw inp) s0) as He2.
  set (s2 := update_traffic (spawn_phase (draw inp) s0)) in *.
  assert (Hok2 : world_ok s2)
    by (apply world_ok_update_traffic, world_ok_spawn_phase; assumption).
  pose proof (world_ok_ego_logic s2 Hok2) as Hok3.
  destruct (ego_logic_frame s2) as (Htr & Hy3 & _).
  set (s3 := ego_logic s2) in *.
  destruct Hok3 as ((_ & Hsz) & Hsp & Hcars).
  unfold speed_ok in Hsp.
  assert (Hy4 : (442 <= y (ego (ego_move s3)))%Q)
    by (simpl; rewrite Hy3, He2; lra).
  rewrite world_scroll_not_taken by lra.
  destruct (collision_check _ _) eqn:Ec; [|reflexivity].
  exfalso. apply collision_check_exists in Ec.
  destruct Ec as [c [Hc Hx]]. simpl in Hc.
  rewrite Forall_forall in Hcars, Hfar.
  pose proof (Hcars c Hc) as [_ Hsc].
  rewrite Htr in Hc. specialize (Hfar c Hc).
  destruct (proj1 (colliderect_positions (ego (ego_move s3)) c Hsz Hsc) Hx)
    as [_ Hnear].
  lra.
Qed.

End AfterReset.

(** X16.  Collisions never come in consecutive ticks: the tick after a
    tick that recorded a collision records none, since the reset leaves
    the road empty and the ego far below anything that can be spawned. *)
Theorem no_consecutive_collisions (s : World) (i1 i2 : TickInput) :
  world_ok s -> valid_input i1 -> valid_input i2 ->
  collisions (tick s i1) = collisions s + 1 ->
  collisions (tick (tick s i1) i2) = collisions (tick s i1).
Proof.
  intros Hok Hv1 Hv2 Hcol.
  assert (Hok1 : world_ok (tick s i1))
    by (apply world_ok_collision_phase, world_ok_before_collision;
        [apply Hv1|exact Hok]).
  assert (Hreset : traffic (tick s i1) = []
                   /\ (y (ego (tick s i1)) == 450)%Q).
  { pose proof (collisions_before_collision s i1) as Hc.
    revert Hcol. unfold tick, collision_phase.
    destruct (collision_check _ _); simpl.
    - intros _. split; reflexivity.
    - intro Hcol. exfalso. lia. }
  destruct Hreset as [Ht Hy].
  pose proof (quiet_after_reset (tick s i1) i2 Hok1 Hv2 Ht Hy) as Hq.
  pose proof (collisions_before_collision (tick s i1) i2) as Hc.
  unfold tick at 1. unfold collision_phase. rewrite Hq. exact Hc.
Qed.

Lemma crash_world_ok : world_ok crash_world.
Proof.
  unfold world_ok, car_ok, lane_ok, speed_ok, size_ok, LANES. simpl.
  repeat split; try lia; try lra.
  repeat constructor; simpl; lia.
Defined.

Lemma no_consecutive_collisions_witness :
  world_ok crash_world /\ valid_input quiet_input
  /\ collisions (tick crash_world quiet_input)
     = collisions crash_world + 1
  /\ collisions (tick (tick crash_world quiet_input) exact_interval_input)
     = collisions (tick crash_world quiet_input).
Proof.
  assert (Hv : valid_input quiet_input).
  { unfold valid_input, valid_draw, LANES. simpl.
    repeat split; try lia; lra. }
  assert (Hv2 : valid_input exact_interval_input).
  { unfold valid_input, valid_draw, LANES. simpl.
    repeat split; try lia; lra. }
  assert (Hc : collisions (tick crash_world quiet_input)
               = collisions crash_world + 1) by reflexivity.
  split; [exact crash_world_ok|]. split; [exact Hv|]. split; [exact Hc|].
  exact (no_consecutive_collisions crash_world quiet_input
           exact_interval_input crash_world_ok Hv Hv2 Hc).
Defined.
